(** * scripts/fix_all_markdown.py: the markdown lint fixer

    A shallow embedding of [fix_markdown_file] and of the text
    transformation it applies, followed by the properties of the
    transformation that the specification states.

    Texts are lists of characters.  A character is an [ascii], read as
    the code point of that number, so the development covers the texts
    whose code points are below 256; the character classes [\s], [\d]
    and [\w] are the ones Python's [re] uses for [str] patterns,
    restricted to that range. *)

From Stdlib Require Import Ascii String List Arith Bool Lia.
From stdpp Require Import base option list gmap strings.
Import ListNotations.

Local Open Scope list_scope.
Local Open Scope bool_scope.

(** ** Texts and characters *)

Definition text := list ascii.

Definition str (s : string) : text := list_ascii_of_string s.

Definition nl : ascii := "010"%char.

Definition code (c : ascii) : N := N_of_ascii c.

Definition in_range (lo hi : N) (c : ascii) : bool :=
  (lo <=? code c)%N && (code c <=? hi)%N.

Definition is_char (a c : ascii) : bool := Ascii.eqb a c.
Arguments is_char : simpl never.

(** [\s] and the characters [str.strip()] removes: TAB..CR, FS..US,
    space, NEL and the no-break space. *)
Definition is_space (c : ascii) : bool :=
  in_range 9 13 c || in_range 28 32 c || in_range 133 133 c || in_range 160 160 c.

(** [\d]: the decimal digits. *)
Definition is_digit (c : ascii) : bool := in_range 48 57 c.

(** [\w]: alphanumeric characters and the underscore. *)
Definition is_word (c : ascii) : bool :=
  in_range 48 57 c || in_range 65 90 c || in_range 97 122 c || in_range 95 95 c
  || in_range 170 170 c || in_range 178 179 c || in_range 181 181 c
  || in_range 185 186 c || in_range 188 190 c
  || in_range 192 214 c || in_range 216 246 c || in_range 248 255 c.

Fixpoint take_while (p : ascii -> bool) (s : text) : text :=
  match s with
  | c :: r => if p c then c :: take_while p r else []
  | [] => []
  end.

Fixpoint drop_while (p : ascii -> bool) (s : text) : text :=
  match s with
  | c :: r => if p c then drop_while p r else s
  | [] => []
  end.

(** [s.startswith(w)] *)
Fixpoint startswith (w s : text) : bool :=
  match w, s with
  | [], _ => true
  | a :: w', c :: s' => is_char a c && startswith w' s'
  | _ :: _, [] => false
  end.

(** [w in s] *)
Fixpoint occurs (w s : text) : bool :=
  startswith w s ||
  match s with
  | [] => false
  | _ :: s' => occurs w s'
  end.

Definition text_eqb (a b : text) : bool :=
  if decide (a = b) then true else false.

(** [s.strip()] *)
Definition lstrip (s : text) : text := drop_while is_space s.
Definition rstrip (s : text) : text := rev (drop_while is_space (rev s)).
Definition strip (s : text) : text := rstrip (lstrip s).

(** [s.split('\n')]: never empty, one more piece than there are newlines. *)
Fixpoint split (s : text) : list text :=
  match s with
  | [] => [[]]
  | c :: r =>
      if is_char nl c then [] :: split r
      else match split r with
           | l :: ls => (c :: l) :: ls
           | [] => [[c]]
           end
  end.

(** ['\n'.join(ls)] *)
Fixpoint join (ls : list text) : text :=
  match ls with
  | [] => []
  | [l] => l
  | l :: ls' => l ++ nl :: join ls'
  end.

(** ** Regular expressions

    Each pattern of the script is written with the combinators below.  A
    pattern is a function from what follows it (its continuation, run on
    the rest of the text) to a matcher of the text.  A repetition is
    greedy and gives characters back one at a time when what follows
    fails, as the backtracking matcher of [re] does. *)

Module Re.

Section Combinators.
Context {A : Type}.

Definition cont := text -> option A.

(** one character of a class *)
Definition one (p : ascii -> bool) (k : cont) : cont := fun s =>
  match s with
  | c :: r => if p c then k r else None
  | [] => None
  end.

(** a literal text *)
Fixpoint lit (w : text) (k : cont) : cont := fun s =>
  match w with
  | [] => k s
  | a :: w' => one (is_char a) (lit w' k) s
  end.

(** [p{0,n}], longest first *)
Fixpoint upto (n : nat) (p : ascii -> bool) (k : cont) : cont := fun s =>
  match n, s with
  | S n', c :: r =>
      if p c then
        match upto n' p k r with
        | Some x => Some x
        | None => k s
        end
      else k s
  | _, _ => k s
  end.

(** [p*]: no more characters can be taken than the text has *)
Definition many (p : ascii -> bool) (k : cont) : cont := fun s =>
  upto (length s) p k s.

(** [p+] *)
Definition many1 (p : ascii -> bool) (k : cont) : cont :=
  one p (many p k).

(** [p?] *)
Definition opt (p : ascii -> bool) (k : cont) : cont := upto 1 p k.

End Combinators.

(** The text between two positions of a match, each position given by
    the text that remains after it. *)
Definition between (from to : text) : text :=
  take (length from - length to) from.

(** The outcome of a pattern tried at one position for [re.sub]: how
    many characters the match takes and what replaces them. *)
Definition hit := (nat * text)%type.

(** [re.sub]: the text is scanned from the left; where the pattern
    matches, the replacement is emitted and the scan goes on after the
    match, elsewhere the character is copied.  [skip] counts the
    characters of the current match still to pass over.  No pattern of
    the script matches the empty text, so nothing is tried at the end. *)
Fixpoint sub_from (m : text -> option hit) (skip : nat) (s : text) : text :=
  match s with
  | [] => []
  | c :: r =>
      match skip with
      | S k => sub_from m k r
      | O =>
          match m s with
          | Some (n, repl) => repl ++ sub_from m (n - 1) r
          | None => c :: sub_from m 0 r
          end
      end
  end.

Definition sub (m : text -> option hit) (s : text) : text := sub_from m 0 s.

(** [re.match(...)] used as a truth value *)
Definition matches (m : text -> option text) (s : text) : bool :=
  match m s with Some _ => true | None => false end.

End Re.

(** ** Line classification *)

Definition blank_line : text := [].

Definition fence_marker : text := str "```".

(** [re.match(r'^#{1,6}\s+', line)] *)
Definition header_re : text -> option text :=
  Re.one (is_char "#") (Re.upto 5 (is_char "#") (Re.many1 is_space Some)).

Definition is_header (line : text) : bool := Re.matches header_re line.

Definition is_bullet (c : ascii) : bool :=
  is_char "-" c || is_char "*" c || is_char "+" c.

(** [re.match(r'^[\s]*[-*+]\s+', line)] *)
Definition bullet_re : text -> option text :=
  Re.many is_space (Re.one is_bullet (Re.many1 is_space Some)).

(** [re.match(r'^[\s]*\d+\.\s+', line)] *)
Definition ordered_re : text -> option text :=
  Re.many is_space
    (Re.many1 is_digit (Re.one (is_char ".") (Re.many1 is_space Some))).

Definition is_list (line : text) : bool :=
  Re.matches bullet_re line || Re.matches ordered_re line.

(** [line.strip() != ''] *)
Definition nonblank (line : text) : bool := negb (text_eqb (strip line) []).

(** [line.strip().startswith('```')] *)
Definition is_fence (line : text) : bool := startswith fence_marker (strip line).

(** ** Pass 1: blank lines around headers and lists (MD022, MD032) *)

(** [lines[i]], read only at indices the guards keep in range *)
Definition line_at (lines : list text) (i : nat) : text := nth i lines [].

(** One turn of the [while] loop: the index and [fixed_lines] after it. *)
Definition header_list_step (lines : list text) (i : nat) (fixed_lines : list text)
  : nat * list text :=
  let line := line_at lines i in
  let prev_line := if 0 <? i then line_at lines (i - 1) else [] in
  let next_line := if i <? length lines - 1 then line_at lines (i + 1) else [] in
  if is_header line then
    let fixed_lines :=
      if (0 <? i) && nonblank prev_line
      then fixed_lines ++ [blank_line] else fixed_lines in
    let fixed_lines := fixed_lines ++ [line] in
    if (i <? length lines - 1) && nonblank next_line && negb (is_header next_line)
    then
      let i := i + 1 in
      let fixed_lines :=
        if i <? length lines then fixed_lines ++ [blank_line] else fixed_lines in
      (i + 1, fixed_lines)
    else (i + 1, fixed_lines)
  else
    let is_list_item := is_list line in
    let prev_is_list := is_list prev_line in
    let next_is_list := is_list next_line in
    if is_list_item then
      let fixed_lines :=
        if negb prev_is_list && nonblank prev_line
        then fixed_lines ++ [blank_line] else fixed_lines in
      let fixed_lines := fixed_lines ++ [line] in
      if negb next_is_list && nonblank next_line
      then (i + 1, (fixed_lines ++ [line]) ++ [blank_line])
      else (i + 1, fixed_lines)
    else (i + 1, fixed_lines ++ [line]).

(** The [while i < len(lines)] loop.  Every turn moves the index forward,
    so [length lines - i] turns are enough ([header_list_loop_fuel]). *)
Fixpoint header_list_loop (fuel : nat) (lines : list text) (i : nat)
    (fixed_lines : list text) : list text :=
  match fuel with
  | O => fixed_lines
  | S fuel' =>
      if i <? length lines then
        let '(i', fixed_lines') := header_list_step lines i fixed_lines in
        header_list_loop fuel' lines i' fixed_lines'
      else fixed_lines
  end.

Definition header_list_pass (lines : list text) : list text :=
  header_list_loop (length lines) lines 0 [].

(** ** Pass 2: blank lines around fenced code blocks (MD031) *)

(** The body of [for i, line in enumerate(fixed_lines)]. *)
Definition fence_step (fixed_lines : list text) (result_lines : list text) (i : nat)
  : list text :=
  let line := line_at fixed_lines i in
  let prev_line := if 0 <? i then line_at fixed_lines (i - 1) else [] in
  let next_line :=
    if i <? length fixed_lines - 1 then line_at fixed_lines (i + 1) else [] in
  if is_fence line then
    let result_lines :=
      if (0 <? i) && nonblank prev_line && negb (is_fence prev_line)
      then result_lines ++ [blank_line] else result_lines in
    let result_lines := result_lines ++ [line] in
    if (i <? length fixed_lines - 1) && nonblank next_line && negb (is_fence next_line)
    then (result_lines ++ [line]) ++ [blank_line]
    else result_lines
  else result_lines ++ [line].

Definition fence_pass (fixed_lines : list text) : list text :=
  fold_left (fence_step fixed_lines) (seq 0 (length fixed_lines)) [].

(** ** Pass 3: substitutions over the joined text *)

(** The characters of [[^\s\)>\]]]. *)
Definition is_url_char (c : ascii) : bool :=
  negb (is_space c || is_char ")" c || is_char ">" c || is_char "]" c).

(** The characters of [[\w\.-]]. *)
Definition is_email_char (c : ascii) : bool :=
  is_word c || is_char "." c || is_char "-" c.

(** The template [\1<\2>\3] filled from the three groups, each group
    lying between two positions of the match. *)
Definition angle_brackets (s s1 s2 s3 : text) : Re.hit :=
  (length s - length s3,
   Re.between s s1 ++ str "<" ++ Re.between s1 s2 ++ str ">" ++ Re.between s2 s3).

(** [(\s)(https?://[^\s\)>\]]+)(\s)] with the replacement [\1<\2>\3] *)
Definition url_re (s : text) : option Re.hit :=
  Re.one is_space (fun s1 =>
    Re.lit (str "http") (Re.opt (is_char "s") (Re.lit (str "://")
      (Re.many1 is_url_char (fun s2 =>
        Re.one is_space (fun s3 => Some (angle_brackets s s1 s2 s3)) s2)))) s1) s.

(** [(\s)([\w\.-]+@[\w\.-]+\.\w+)(\s)] with the replacement [\1<\2>\3] *)
Definition email_re (s : text) : option Re.hit :=
  Re.one is_space (fun s1 =>
    Re.many1 is_email_char (Re.one (is_char "@")
      (Re.many1 is_email_char (Re.one (is_char ".")
        (Re.many1 is_word (fun s2 =>
          Re.one is_space (fun s3 => Some (angle_brackets s s1 s2 s3)) s2))))) s1) s.

(** [\n\n\n+] replaced by two newlines *)
Definition blank_run_re (s : text) : option Re.hit :=
  Re.lit [nl; nl] (Re.many1 (is_char nl)
    (fun r => Some (length s - length r, [nl; nl]))) s.

Definition bare_fence : text := nl :: fence_marker ++ [nl].
Definition bash_fence : text := nl :: fence_marker ++ str "bash" ++ [nl].

(** [\n```\n] replaced by [\n```bash\n] *)
Definition bare_fence_re (s : text) : option Re.hit :=
  Re.lit bare_fence (fun r => Some (length s - length r, bash_fence)) s.

Definition wrap_urls : text -> text := Re.sub url_re.
Definition wrap_emails : text -> text := Re.sub email_re.
Definition collapse_blank_lines : text -> text := Re.sub blank_run_re.
Definition tag_fences : text -> text := Re.sub bare_fence_re.

Definition substitutions (content : text) : text :=
  tag_fences (collapse_blank_lines (wrap_emails (wrap_urls content))).

(** ** The transformation of a file's content

    What [fix_markdown_file] computes between reading [content] and
    comparing the result with [original_content]. *)
Definition fix_content (content : text) : text :=
  let lines := split content in
  let fixed_lines := header_list_pass lines in
  let result_lines := fence_pass fixed_lines in
  substitutions (join result_lines).

(** ** Files

    The files the script can see: each has the text [read()] returns for
    it and may refuse to be opened for writing.  [written] lists the
    paths written so far, latest first. *)

Record file := { contents : text; writable : bool }.

Record disk := { files : gmap string file; written : list string }.

Inductive error := FileNotFoundError | PermissionError.

Inductive outcome (A : Type) :=
| Returned (a : A)
| Raised (e : error).
Arguments Returned {A} a.
Arguments Raised {A} e.

(** A computation on the disk: it returns or raises, and leaves a disk. *)
Definition io (A : Type) := disk -> outcome A * disk.

Definition ret {A} (a : A) : io A := fun d => (Returned a, d).

Definition bind {A B} (m : io A) (f : A -> io B) : io B := fun d =>
  match m d with
  | (Returned a, d') => f a d'
  | (Raised e, d') => (Raised e, d')
  end.

Notation "'do' x <- m ; f" := (bind m (fun x => f))
  (at level 10, x name, m at level 100, f at level 200).

(** [with open(filepath, 'r', ...) as f: f.read()] *)
Definition read_text (filepath : string) : io text := fun d =>
  match files d !! filepath with
  | Some f => (Returned (contents f), d)
  | None => (Raised FileNotFoundError, d)
  end.

(** [with open(filepath, 'w', ...) as f: f.write(content)].  The open is
    refused for a file that is not writable, and nothing is written then;
    a write that fails after the open has emptied the file is not
    modelled. *)
Definition write_text (filepath : string) (content : text) : io unit := fun d =>
  match files d !! filepath with
  | Some f =>
      if writable f then
        (Returned tt,
         {| files := <[filepath := {| contents := content; writable := true |}]> (files d);
            written := filepath :: written d |})
      else (Raised PermissionError, d)
  | None =>
      (Returned tt,
       {| files := <[filepath := {| contents := content; writable := true |}]> (files d);
          written := filepath :: written d |})
  end.

(** ** [fix_markdown_file] *)

Definition fix_markdown_file (filepath : string) : io bool :=
  do content <- read_text filepath;
  let original_content := content in
  let content := fix_content content in
  if negb (text_eqb content original_content) then
    do _ <- write_text filepath content;
    ret true
  else ret false.

(** What the specification counts for its no-data-loss property. *)
Definition content_lines (content : text) : nat :=
  length (filter (fun line => nonblank line = true) (split content)).

(** ** [main]

    A [Path] as [main] uses it: the name [open] is given and the tuple
    [md_file.parts].  The files [repo_root.rglob('*.md')] yields, and
    their order, come from the file system; [main] takes them as
    [md_files]. *)

Record md_path := { path_name : string; parts : list string }.

(** [md_file.relative_to(repo_root)]: the parts below the root, or
    [ValueError] when the root is not a prefix. *)
Definition relative_to (repo_root : list string) (md_file : md_path)
  : option (list string) :=
  if decide (take (length repo_root) (parts md_file) = repo_root)
  then Some (drop (length repo_root) (parts md_file))
  else None.

(** What [except Exception as e] can catch in the loop of [main]. *)
Inductive exception := OSError (e : error) | ValueError.

(** The lines [main] prints. *)
Inductive printed_line :=
| Fixed (rel : list string)
| ErrorFixing (name : string) (e : exception)
| TotalFilesFixed (n : nat).

(** [fixed_count], what has been printed, and the disk. *)
Record run := { fixed_count : nat; printed : list printed_line; on_disk : disk }.

(** The body of [for md_file in repo_root.rglob('*.md')]. *)
Definition main_step (repo_root : list string) (st : run) (md_file : md_path) : run :=
  if decide ("target" ∈ parts md_file) then st
  else
    match fix_markdown_file (path_name md_file) (on_disk st) with
    | (Returned true, d) =>
        match relative_to repo_root md_file with
        | Some rel =>
            {| fixed_count := fixed_count st + 1;
               printed := printed st ++ [Fixed rel];
               on_disk := d |}
        | None =>
            {| fixed_count := fixed_count st;
               printed := printed st ++ [ErrorFixing (path_name md_file) ValueError];
               on_disk := d |}
        end
    | (Returned false, d) =>
        {| fixed_count := fixed_count st; printed := printed st; on_disk := d |}
    | (Raised e, d) =>
        {| fixed_count := fixed_count st;
           printed := printed st ++ [ErrorFixing (path_name md_file) (OSError e)];
           on_disk := d |}
    end.

Definition main_loop (repo_root : list string) (md_files : list md_path) (st : run)
  : run :=
  fold_left (main_step repo_root) md_files st.

Definition main (repo_root : list string) (md_files : list md_path) (d : disk)
  : list printed_line * disk :=
  let st := main_loop repo_root md_files
              {| fixed_count := 0; printed := []; on_disk := d |} in
  (printed st ++ [TotalFilesFixed (fixed_count st)], on_disk st).

(** ** Vocabulary of the further properties *)

(** The lines a pass adds for one input line are blank or copies of it. *)
Definition blank_or (line : text) (emitted : list text) : Prop :=
  Forall (fun l => l = blank_line \/ l = line) emitted.

(** A text with its angle brackets removed. *)
Definition is_angle (c : ascii) : bool := is_char "<" c || is_char ">" c.
Definition without_angles (s : text) : text :=
  List.filter (fun c => negb (is_angle c)) s.

(** No line of [lines] satisfies [p]. *)
Definition none_is (p : text -> bool) (lines : list text) : bool :=
  forallb (fun l => negb (p l)) lines.

(** A URL as the pattern [https?://[^\s\)>\]]+] takes it. *)
Definition url_shape (body : text) : Prop :=
  exists scheme run,
    body = scheme ++ run
    /\ (scheme = str "http://" \/ scheme = str "https://")
    /\ run <> [] /\ forallb is_url_char run = true.

(** An address as the pattern [[\w\.-]+@[\w\.-]+\.\w+] takes it. *)
Definition email_shape (body : text) : Prop :=
  exists name domain tld,
    body = name ++ str "@" ++ domain ++ str "." ++ tld
    /\ name <> [] /\ forallb is_email_char name = true
    /\ domain <> [] /\ forallb is_email_char domain = true
    /\ tld <> [] /\ forallb is_word tld = true.

Definition is_fixed_line (l : printed_line) : bool :=
  match l with Fixed _ => true | _ => false end.

(** ** Vocabulary of the properties *)

(** A text given line by line. *)
Definition doc (ls : list string) : text := join (map str ls).

(** The length of the run of newlines a text starts with. *)
Definition lead (s : text) : nat := length (take_while (is_char nl) s).

Definition three_newlines : text := [nl; nl; nl].

(** The disk after [filepath] has been overwritten with [content]. *)
Definition overwritten (filepath : string) (content : text) (d : disk) : disk :=
  {| files := <[filepath := {| contents := content; writable := true |}]> (files d);
     written := filepath :: written d |}.

(** A disk with a file that is already fixed and one that is not. *)
Definition fixed_file : file := {| contents := doc ["# Notes"; ""; "Done."]; writable := true |}.
Definition unfixed_file : file :=
  {| contents := str "See https://example.com for details"; writable := true |}.
Definition sample_disk : disk :=
  {| files := <["GUIDE.md" := unfixed_file]> {["README.md" := fixed_file]};
     written := [] |}.

(** Paths of the files of [sample_disk], one that does not exist and
    one below a directory "target". *)
Definition sample_root : list string := ["repo"].
Definition guide_path : md_path :=
  {| path_name := "GUIDE.md"; parts := ["repo"; "GUIDE.md"] |}.
Definition readme_path : md_path :=
  {| path_name := "README.md"; parts := ["repo"; "README.md"] |}.
Definition target_path : md_path :=
  {| path_name := "GUIDE.md"; parts := ["repo"; "target"; "GUIDE.md"] |}.

(** Whether pass 1 keeps the line at index [j]: every line but a
    non-blank line that is not a heading and comes right after a heading. *)
Definition kept_by_pass1 (lines : list text) (j : nat) : bool :=
  (j =? 0) || negb (is_header (line_at lines (j - 1)))
  || is_header (line_at lines j) || negb (nonblank (line_at lines j)).

(** The lines kept, from index [i] on, and all of them. *)
Definition kept_from (lines : list text) (i : nat) : list text :=
  map (line_at lines)
    (List.filter (kept_by_pass1 lines) (seq i (length lines - i))).

Definition kept_lines (lines : list text) : list text :=
  map (line_at lines)
    (List.filter (kept_by_pass1 lines) (seq 0 (length lines))).

(** * Properties *)

(** ** The loop of pass 1 terminates *)

Lemma header_list_step_index lines i fixed_lines :
  i < fst (header_list_step lines i fixed_lines).
Proof.
  unfold header_list_step.
  repeat match goal with
         | |- context [if ?b then _ else _] => destruct b
         end; simpl; lia.
Qed.

Lemma header_list_loop_fuel fuel1 : forall fuel2 lines i fixed_lines,
  length lines - i <= fuel1 ->
  length lines - i <= fuel2 ->
  header_list_loop fuel1 lines i fixed_lines
  = header_list_loop fuel2 lines i fixed_lines.
Proof.
  induction fuel1 as [|fuel1 IH]; intros fuel2 lines i fixed_lines H1 H2.
  - destruct fuel2 as [|fuel2]; simpl; [reflexivity|].
    destruct (Nat.ltb_spec i (length lines)); [lia|reflexivity].
  - simpl. destruct (Nat.ltb_spec i (length lines)) as [Hlt|Hge].
    + destruct fuel2 as [|fuel2]; [lia|]. simpl.
      destruct (Nat.ltb_spec i (length lines)); [|lia].
      pose proof (header_list_step_index lines i fixed_lines) as Hi.
      destruct (header_list_step lines i fixed_lines) as [i' fixed_lines'].
      simpl in Hi. apply IH; lia.
    + destruct fuel2 as [|fuel2]; simpl; [reflexivity|].
      destruct (Nat.ltb_spec i (length lines)); [lia|reflexivity].
Qed.

Lemma header_list_pass_fuel lines fuel :
  length lines <= fuel ->
  header_list_loop fuel lines 0 [] = header_list_pass lines.
Proof. intros H. apply header_list_loop_fuel; lia. Qed.

(** ** Line classification on examples *)

Example is_header_examples :
  map is_header (map str ["# Title"; "###### deep"; "####### seven"; "#tag"; "#"; " # x"])
  = [true; true; false; false; false; false].
Proof. reflexivity. Qed.

Example is_list_examples :
  map is_list (map str ["- a"; "  * b"; "+ c"; "12. d"; "-e"; "1.f"; "1) g"; "-"; ""])
  = [true; true; true; true; false; false; false; false; false].
Proof. reflexivity. Qed.

Example is_fence_examples :
  map is_fence (map str ["```"; "  ```python"; "``"; "x ```"])
  = [true; true; false; false].
Proof. reflexivity. Qed.

Example wrap_emails_examples :
  wrap_emails (str "mail bob@ex-ample.co.uk now") = str "mail <bob@ex-ample.co.uk> now"
  /\ wrap_emails (str "mail bob@example. now") = str "mail bob@example. now"
  /\ wrap_emails (str "bob@example.org now") = str "bob@example.org now".
Proof. repeat split; reflexivity. Qed.

(** ** What the passes do to two adjacent lines *)

Ltac run_pass :=
  cbv [header_list_pass header_list_loop header_list_step
       fence_pass fence_step fold_left seq line_at blank_line
       length nth Nat.ltb Nat.leb Nat.sub Nat.add app fst snd].

(** A heading followed by a line of text: the line of text is not emitted. *)
Lemma header_then_text (h b : text) :
  is_header h = true -> nonblank b = true -> is_header b = false ->
  header_list_pass [h; b] = [h; blank_line].
Proof. intros Hh Hb Hhb. run_pass. now rewrite Hh, Hb, Hhb. Qed.

(** A list item followed by a line of text: the item is emitted twice. *)
Lemma item_then_text (item b : text) :
  is_header item = false -> is_list item = true ->
  nonblank b = true -> is_list b = false -> is_header b = false ->
  header_list_pass [item; b] = [item; item; blank_line; b].
Proof.
  intros Hh Hl Hb Hlb Hhb. run_pass.
  change (nonblank []) with false. change (is_list []) with false.
  rewrite Hh, Hl, Hb, Hlb. cbn [negb andb].
  rewrite Hhb, Hlb. reflexivity.
Qed.

(** A fence line followed by a line of text: the fence line is emitted twice. *)
Lemma fence_then_text (f b : text) :
  is_fence f = true -> nonblank b = true -> is_fence b = false ->
  fence_pass [f; b] = [f; f; blank_line; b].
Proof. intros Hf Hb Hfb. run_pass. now rewrite Hf, Hb, Hfb. Qed.

(** ** Evaluations of the transformation *)

(** C2 (header spacing): on the content "Title\n# Heading\nBody" the
    transformation puts a blank line before and after the heading, but the
    turn of the loop that handles the heading also steps over the line
    that follows it: "Body" is not in the output, which is
    "Title\n\n# Heading\n" and not "Title\n\n# Heading\n\nBody". *)
Theorem C2_header_spacing_drops_next_line :
  fix_content (doc ["Title"; "# Heading"; "Body"])
  = doc ["Title"; ""; "# Heading"; ""]
  /\ fix_content (doc ["Title"; "# Heading"; "Body"])
     <> doc ["Title"; ""; "# Heading"; ""; "Body"]
  /\ header_list_pass (map str ["Title"; "# Heading"; "Body"])
     = map str ["Title"; ""; "# Heading"; ""].
Proof. split; [|split]; [reflexivity | discriminate | reflexivity]. Qed.

(** C1 (no data loss): the content "Title\n# Heading\nBody" has three
    non-blank lines and its transformation has two: the line after the
    heading is deleted.  The count also grows: "- a\nb" has two non-blank
    lines and its transformation has three. *)
Theorem C1_content_line_count_not_preserved :
  content_lines (doc ["Title"; "# Heading"; "Body"]) = 3
  /\ content_lines (fix_content (doc ["Title"; "# Heading"; "Body"])) = 2
  /\ occurs (str "Body") (fix_content (doc ["Title"; "# Heading"; "Body"])) = false
  /\ content_lines (doc ["- a"; "b"]) = 2
  /\ content_lines (fix_content (doc ["- a"; "b"])) = 3.
Proof. repeat split; reflexivity. Qed.

(** C3 (list spacing): on the content "Para\n- item1\n- item2\nPara2" the
    list is wrapped in blank lines, but its last item is emitted twice:
    the output is "Para\n\n- item1\n- item2\n- item2\n\nPara2". *)
Theorem C3_list_spacing_repeats_last_item :
  fix_content (doc ["Para"; "- item1"; "- item2"; "Para2"])
  = doc ["Para"; ""; "- item1"; "- item2"; "- item2"; ""; "Para2"]
  /\ fix_content (doc ["Para"; "- item1"; "- item2"; "Para2"])
     <> doc ["Para"; ""; "- item1"; "- item2"; ""; "Para2"]
  /\ length (filter (fun line => line = str "- item2")
               (split (fix_content (doc ["Para"; "- item1"; "- item2"; "Para2"]))))
     = 2.
Proof. split; [|split]; [reflexivity | discriminate | reflexivity]. Qed.

(** C5 (fence spacing pass): a blank line is put before and after a fence
    line next to a line of text, but a fence line that gets a blank line
    after it is emitted twice: the lines "```", "code" become
    "```", "```", "", "code". *)
Theorem C5_fence_pass_repeats_fence_line :
  fence_pass (map str ["```"; "code"]) = map str ["```"; "```"; ""; "code"]
  /\ fence_pass (map str ["text"; "```"; "code"; "```"; "more"])
     = map str ["text"; ""; "```"; "```"; ""; "code"; ""; "```"; "```"; ""; "more"].
Proof. split; reflexivity. Qed.

(** C7 (bare URL wrapping): "See https://example.com for details" becomes
    "See <https://example.com> for details", but of two URLs separated by
    one whitespace character only the first is wrapped, though both have
    whitespace on both sides: the match of the first takes the character
    that the second would have to start with. *)
Theorem C7_second_of_adjacent_urls_left_bare :
  fix_content (str "See https://example.com for details")
  = str "See <https://example.com> for details"
  /\ wrap_urls (str "a http://x http://y b") = str "a <http://x> http://y b"
  /\ fix_content (str "a http://x http://y b") = str "a <http://x> http://y b".
Proof. repeat split; reflexivity. Qed.

(** C4 (idempotence): a second run changes the output of the first.  On
    "a http://x http://y b" the first run wraps one URL and the second run
    the other; on "a\n```\nb" the first run tags one of the two fence lines
    it leaves and the second run tags the other. *)
Theorem C4_second_run_changes_output :
  fix_content (str "a http://x http://y b") = str "a <http://x> http://y b"
  /\ fix_content (fix_content (str "a http://x http://y b"))
     = str "a <http://x> <http://y> b"
  /\ fix_content (doc ["a"; "```"; "b"]) = doc ["a"; ""; "```bash"; "```"; ""; "b"]
  /\ fix_content (fix_content (doc ["a"; "```"; "b"]))
     = doc ["a"; ""; "```bash"; "```bash"; ""; "b"]
  /\ fix_content (fix_content (str "a http://x http://y b"))
     <> fix_content (str "a http://x http://y b").
Proof. repeat split; try reflexivity. discriminate. Qed.

(** ** Texts: prefixes and runs of newlines *)

Lemma text_length_ind (P : text -> Prop) :
  (forall s, (forall t, length t < length s -> P t) -> P s) -> forall s, P s.
Proof.
  intros step s. remember (length s) as n eqn:Hn.
  revert s Hn. induction (lt_wf n) as [n _ IH]. intros s ->.
  apply step. intros t Ht. exact (IH (length t) Ht t eq_refl).
Qed.

Lemma is_char_true a c : is_char a c = true <-> a = c.
Proof. apply Ascii.eqb_eq. Qed.

Lemma is_char_refl a : is_char a a = true.
Proof. apply Ascii.eqb_refl. Qed.

Lemma startswith_app w r : startswith w (w ++ r) = true.
Proof. induction w as [|a w IH]; simpl; [reflexivity|]. now rewrite is_char_refl. Qed.

Lemma startswith_inv w s :
  startswith w s = true -> s = w ++ drop (length w) s.
Proof.
  revert s. induction w as [|a w IH]; intros [|c s] H; simpl in *;
    try reflexivity; try discriminate.
  apply andb_true_iff in H as [Hc Hs].
  apply is_char_true in Hc as ->. f_equal. now apply IH.
Qed.

Lemma occurs_false_tail w c s :
  occurs w (c :: s) = false -> occurs w s = false.
Proof. simpl. intros H. apply orb_false_iff in H. destruct w; apply H. Qed.

Lemma occurs_false_head w s : occurs w s = false -> startswith w s = false.
Proof. destruct s; simpl; intros H; apply orb_false_iff in H; apply H. Qed.

Lemma occurs_cons w c s :
  occurs w (c :: s) = startswith w (c :: s) || occurs w s.
Proof. reflexivity. Qed.

Lemma take_drop_while p s : take_while p s ++ drop_while p s = s.
Proof. induction s as [|c s IH]; simpl; [reflexivity|]. destruct (p c); simpl; congruence. Qed.

Lemma drop_lead s : drop (lead s) s = drop_while (is_char nl) s.
Proof.
  unfold lead. induction s as [|c s IH]; simpl; [reflexivity|].
  destruct (is_char nl c); simpl; [exact IH | reflexivity].
Qed.

Lemma lead_drop_while s : lead (drop_while (is_char nl) s) = 0.
Proof.
  unfold lead. induction s as [|c s IH]; simpl; [reflexivity|].
  destruct (is_char nl c) eqn:E; [exact IH|]. simpl. now rewrite E.
Qed.

Lemma length_drop_while p s : length (drop_while p s) <= length s.
Proof. induction s as [|c s IH]; simpl; [lia|]. destruct (p c); simpl; lia. Qed.

Lemma lead_nl s : lead (nl :: s) = S (lead s).
Proof. reflexivity. Qed.

Lemma lead_other c s : is_char nl c = false -> lead (c :: s) = 0.
Proof. unfold lead. simpl. now intros ->. Qed.

Lemma startswith_three s : startswith three_newlines s = (3 <=? lead s).
Proof.
  unfold three_newlines, lead.
  destruct s as [|c1 [|c2 [|c3 s]]]; simpl; try reflexivity;
    destruct (is_char nl c1); simpl; try reflexivity;
    destruct (is_char nl c2); simpl; try reflexivity;
    destruct (is_char nl c3); simpl; reflexivity.
Qed.

Lemma occurs_three_nl s :
  occurs three_newlines (nl :: s) = (2 <=? lead s) || occurs three_newlines s.
Proof.
  change (occurs three_newlines (nl :: s))
    with (startswith three_newlines (nl :: s) || occurs three_newlines s).
  now rewrite startswith_three, lead_nl.
Qed.

Lemma occurs_three_other c s :
  is_char nl c = false ->
  occurs three_newlines (c :: s) = occurs three_newlines s.
Proof.
  intros H.
  change (occurs three_newlines (c :: s))
    with (startswith three_newlines (c :: s) || occurs three_newlines s).
  now rewrite startswith_three, (lead_other _ _ H).
Qed.

(** ** The scan of [re.sub] *)

Lemma sub_from_drop m n s : Re.sub_from m n s = Re.sub m (drop n s).
Proof.
  revert n. induction s as [|c s IH]; intros [|n]; try reflexivity.
  simpl. apply IH.
Qed.


(** ** What the patterns of pass 3 match *)

Lemma lit_spec {A} w (k : text -> option A) s :
  Re.lit w k s = if startswith w s then k (drop (length w) s) else None.
Proof.
  revert s. induction w as [|a w IH]; intros s; [reflexivity|].
  destruct s as [|c s]; [reflexivity|]. simpl.
  destruct (is_char a c); [apply IH | reflexivity].
Qed.

Lemma upto_all {A} n p (k : text -> option A) s :
  (forall r, k r <> None) ->
  length (take_while p s) <= n ->
  Re.upto n p k s = k (drop_while p s).
Proof.
  intros Hk. revert s. induction n as [|n IH]; intros [|c s] Hn; simpl in *;
    try reflexivity.
  - destruct (p c); [simpl in Hn; lia | reflexivity].
  - destruct (p c); [|reflexivity]. simpl in Hn.
    rewrite IH by lia.
    destruct (k (drop_while p s)) eqn:E; [reflexivity | now apply Hk in E].
Qed.

Lemma length_take_while p s : length (take_while p s) <= length s.
Proof. induction s as [|c s IH]; simpl; [lia|]. destruct (p c); simpl; lia. Qed.

Lemma length_take_drop_while p s :
  length s - length (drop_while p s) = length (take_while p s).
Proof.
  rewrite <- (take_drop_while p s) at 1. rewrite length_app. lia.
Qed.

Lemma blank_run_re_spec s :
  blank_run_re s = if 3 <=? lead s then Some (lead s, [nl; nl]) else None.
Proof.
  unfold blank_run_re. rewrite lit_spec.
  destruct s as [|c1 s]; [reflexivity|]. cbn [startswith].
  destruct (is_char nl c1) eqn:E1;
    [apply is_char_true in E1 as <- | now rewrite (lead_other _ _ E1)].
  destruct s as [|c2 s]; [reflexivity|]. cbn [startswith].
  destruct (is_char nl c2) eqn:E2;
    [apply is_char_true in E2 as <- | now rewrite lead_nl, (lead_other _ _ E2)].
  change (drop (length [nl; nl]) (nl :: nl :: s)) with s.
  cbn [andb]. unfold Re.many1, Re.one.
  destruct s as [|c3 s]; [reflexivity|].
  destruct (is_char nl c3) eqn:E3;
    [apply is_char_true in E3 as <- | now rewrite !lead_nl, (lead_other _ _ E3)].
  unfold Re.many. rewrite upto_all;
    [| discriminate | apply length_take_while].
  rewrite !lead_nl. simpl Nat.leb. do 2 f_equal.
  change (length (nl :: nl :: nl :: s)) with (3 + length s).
  pose proof (length_take_drop_while (is_char nl) s) as H.
  pose proof (length_drop_while (is_char nl) s) as H'.
  unfold lead. lia.
Qed.

Lemma collapse_hit s :
  3 <= lead s ->
  collapse_blank_lines s
  = nl :: nl :: collapse_blank_lines (drop_while (is_char nl) s).
Proof.
  intros H. destruct s as [|c s]; [cbv in H; lia|].
  unfold collapse_blank_lines, Re.sub at 1. cbn [Re.sub_from].
  rewrite blank_run_re_spec.
  destruct (Nat.leb_spec 3 (lead (c :: s))) as [_|]; [|lia].
  rewrite sub_from_drop, <- drop_lead.
  remember (lead (c :: s)) as n eqn:Hn. clear Hn.
  destruct n as [|n]; [lia|].
  cbn [Nat.sub app skipn]. now rewrite Nat.sub_0_r.
Qed.

Lemma collapse_miss c s :
  lead (c :: s) < 3 ->
  collapse_blank_lines (c :: s) = c :: collapse_blank_lines s.
Proof.
  intros H. unfold collapse_blank_lines, Re.sub at 1. cbn [Re.sub_from].
  rewrite blank_run_re_spec.
  destruct (Nat.leb_spec 3 (lead (c :: s))); [lia | reflexivity].
Qed.

Lemma bare_fence_re_spec s :
  bare_fence_re s = if startswith bare_fence s then Some (5, bash_fence) else None.
Proof.
  unfold bare_fence_re. rewrite lit_spec.
  destruct (startswith bare_fence s) eqn:E; [|reflexivity].
  apply startswith_inv in E. rewrite E at 1. do 2 f_equal.
  rewrite length_app. change (length bare_fence) with 5. lia.
Qed.

Lemma tag_hit r : tag_fences (bare_fence ++ r) = bash_fence ++ tag_fences r.
Proof.
  unfold tag_fences, Re.sub at 1.
  change (bare_fence ++ r) with (nl :: fence_marker ++ nl :: r) at 1.
  cbn [Re.sub_from].
  change (nl :: fence_marker ++ nl :: r) with (bare_fence ++ r).
  rewrite bare_fence_re_spec, startswith_app.
  now rewrite sub_from_drop.
Qed.

Lemma tag_miss c s :
  startswith bare_fence (c :: s) = false ->
  tag_fences (c :: s) = c :: tag_fences s.
Proof.
  intros H. unfold tag_fences, Re.sub at 1. cbn [Re.sub_from].
  now rewrite bare_fence_re_spec, H.
Qed.

(** ** Runs of newlines through the last two substitutions *)

Lemma collapse_spec s :
  lead (collapse_blank_lines s) = Nat.min (lead s) 2
  /\ occurs three_newlines (collapse_blank_lines s) = false.
Proof.
  induction s as [s IH] using text_length_ind.
  destruct (le_lt_dec 3 (lead s)) as [Hrun|Hrun].
  - rewrite (collapse_hit s Hrun).
    assert (Hlen : length (drop_while (is_char nl) s) < length s).
    { rewrite <- drop_lead, length_drop.
      pose proof (length_take_while (is_char nl) s). unfold lead in *. lia. }
    destruct (IH _ Hlen) as [Hlead Hocc].
    rewrite lead_drop_while in Hlead. simpl in Hlead.
    split.
    + rewrite !lead_nl, Hlead. lia.
    + rewrite !occurs_three_nl, lead_nl, Hlead, Hocc. reflexivity.
  - destruct s as [|c s]; [split; reflexivity|].
    rewrite (collapse_miss c s Hrun).
    destruct (IH s) as [Hlead Hocc]; [simpl; lia|].
    destruct (is_char nl c) eqn:E.
    + apply is_char_true in E as <-. rewrite lead_nl in Hrun.
      rewrite occurs_three_nl, !lead_nl, Hlead, Hocc.
      split; [lia|].
      rewrite orb_false_r. apply Nat.leb_gt. lia.
    + rewrite (occurs_three_other _ _ E), !(lead_other _ _ E). now split.
Qed.

Lemma tag_spec s :
  lead (tag_fences s) = lead s
  /\ (occurs three_newlines s = false ->
      occurs three_newlines (tag_fences s) = false).
Proof.
  induction s as [s IH] using text_length_ind.
  destruct (startswith bare_fence s) eqn:Hhit.
  - apply startswith_inv in Hhit. change (length bare_fence) with 5 in Hhit.
    assert (Hlen : length (drop 5 s) < length s).
    { rewrite Hhit at 2. rewrite length_app. change (length bare_fence) with 5. lia. }
    destruct (IH _ Hlen) as [Hlead Hocc].
    rewrite Hhit, tag_hit. clear Hhit.
    split; [reflexivity|]. intros H.
    change (bare_fence ++ drop 5 s)
      with (nl :: "`" :: "`" :: "`" :: nl :: drop 5 s)%char in H.
    do 4 apply occurs_false_tail in H.
    rewrite occurs_three_nl in H. apply orb_false_iff in H as [Hrun H].
    change (bash_fence ++ tag_fences (drop 5 s))
      with (nl :: "`" :: "`" :: "`" :: "b" :: "a" :: "s" :: "h" :: nl
               :: tag_fences (drop 5 s))%char.
    rewrite occurs_three_nl, !occurs_three_other by reflexivity.
    rewrite occurs_three_nl, Hlead, Hrun, (Hocc H). reflexivity.
  - destruct s as [|c s]; [split; [reflexivity | intros _; reflexivity]|].
    rewrite (tag_miss c s Hhit).
    destruct (IH s) as [Hlead Hocc]; [simpl; lia|].
    destruct (is_char nl c) eqn:E.
    + apply is_char_true in E as <-.
      rewrite !lead_nl, !occurs_three_nl, Hlead. split; [reflexivity|].
      intros H. apply orb_false_iff in H as [-> H]. now rewrite Hocc.
    + rewrite !(lead_other _ _ E), !(occurs_three_other _ _ E). now split.
Qed.

(** A run of three or more newlines, taken whole, becomes two. *)
Lemma take_while_app_more p a x :
  drop_while p a <> [] ->
  take_while p (a ++ x) = take_while p a
  /\ drop_while p (a ++ x) = drop_while p a ++ x.
Proof.
  induction a as [|c a IH]; simpl; [congruence|].
  destruct (p c); [|now split].
  intros H. destruct (IH H) as [-> ->]. now split.
Qed.

Lemma last_drop_while p (a : text) :
  drop_while p a <> [] -> last (drop_while p a) = last a.
Proof.
  induction a as [|c a IH]; simpl; [congruence|].
  destruct (p c); [|reflexivity].
  intros H. rewrite (IH H). destruct a; [simpl in H; congruence | reflexivity].
Qed.

Lemma drop_while_nonempty (a : text) :
  a <> [] -> last a <> Some nl -> drop_while (is_char nl) a <> [].
Proof.
  induction a as [|c a IH]; [congruence|]. intros _ Hlast. simpl.
  destruct (is_char nl c) eqn:E; [|congruence].
  apply is_char_true in E as <-.
  destruct a as [|c' a]; [now simpl in Hlast|].
  apply IH; [congruence | exact Hlast].
Qed.

Lemma lead_repeat k b :
  head b <> Some nl -> lead (repeat nl k ++ b) = k
  /\ drop_while (is_char nl) (repeat nl k ++ b) = b.
Proof.
  intros Hb. induction k as [|k [IH1 IH2]].
  - destruct b as [|c b]; [now split|]. simpl.
    destruct (is_char nl c) eqn:E.
    + apply is_char_true in E as <-. now simpl in Hb.
    + rewrite (lead_other _ _ E). now split.
  - cbn [repeat]. rewrite <- app_comm_cons, lead_nl, IH1.
    split; [reflexivity|]. cbn [drop_while].
    now rewrite is_char_refl.
Qed.

Lemma collapse_run (a : text) : forall k b,
  3 <= k -> last a <> Some nl -> head b <> Some nl ->
  collapse_blank_lines (a ++ repeat nl k ++ b)
  = collapse_blank_lines a ++ [nl; nl] ++ collapse_blank_lines b.
Proof.
  induction a as [a IH] using text_length_ind. intros k b Hk Ha Hb.
  destruct a as [|c a].
  - destruct (lead_repeat k b Hb) as [Hlead Hdrop].
    rewrite app_nil_l, collapse_hit by lia. now rewrite Hdrop.
  - pose proof (drop_while_nonempty (c :: a) ltac:(congruence) Ha) as Hne.
    destruct (take_while_app_more (is_char nl) (c :: a) (repeat nl k ++ b) Hne)
      as [Htake Hdrop].
    assert (Hlead : lead ((c :: a) ++ repeat nl k ++ b) = lead (c :: a))
      by (unfold lead; now rewrite Htake).
    destruct (le_lt_dec 3 (lead (c :: a))) as [Hrun|Hrun].
    + rewrite collapse_hit by lia. rewrite (collapse_hit (c :: a)) by lia.
      rewrite Hdrop, IH; [reflexivity | | lia | | exact Hb].
      * rewrite <- drop_lead, length_drop. simpl length. lia.
      * now rewrite last_drop_while.
    + rewrite <- app_comm_cons, collapse_miss
        by (rewrite app_comm_cons; lia).
      rewrite (collapse_miss c a Hrun), IH; [reflexivity | simpl; lia | lia | | exact Hb].
      destruct a; [discriminate | exact Ha].
Qed.

(** ** C8: blank-line collapsing *)

(** C8: in the final content no three newlines follow one another; a run
    of three or more newlines between a text that does not end with a
    newline and a text that does not start with one is collapsed to
    exactly two; and "a\n\n\n\nb" becomes "a\n\nb". *)
Theorem C8_blank_lines_collapsed :
  (forall content, occurs three_newlines (fix_content content) = false)
  /\ (forall a k b,
        3 <= k -> last a <> Some nl -> head b <> Some nl ->
        collapse_blank_lines (a ++ repeat nl k ++ b)
        = collapse_blank_lines a ++ [nl; nl] ++ collapse_blank_lines b)
  /\ fix_content (doc ["a"; ""; ""; ""; "b"]) = doc ["a"; ""; "b"].
Proof.
  split; [|split].
  - intros content. unfold fix_content, substitutions.
    apply tag_spec, collapse_spec.
  - intros a k b. apply collapse_run.
  - reflexivity.
Qed.

Lemma C8_blank_lines_collapsed_witness :
  3 <= 4 /\ last (str "a") <> Some nl /\ head (str "b") <> Some nl
  /\ collapse_blank_lines (str "a" ++ repeat nl 4 ++ str "b")
     = collapse_blank_lines (str "a") ++ [nl; nl] ++ collapse_blank_lines (str "b").
Proof.
  split; [lia|]. split; [discriminate|]. split; [discriminate|].
  apply (proj1 (proj2 C8_blank_lines_collapsed)); [lia | discriminate | discriminate].
Defined.

(** ** C9: the write-back decision *)

Lemma text_eqb_eq a b : text_eqb a b = true <-> a = b.
Proof. unfold text_eqb. destruct (decide (a = b)); split; congruence. Qed.

(** C9: for a file that can be read, with [content] the text read:
    if the transformed text equals [content], the call returns [False],
    writes nothing and leaves the disk as it was; if it differs (and the
    file can be opened for writing), the call overwrites the file with the
    transformed text and returns [True]; and whenever the call returns, it
    returns [True] exactly when the transformed text differs from
    [content], which is exactly when the file has been written. *)
Theorem C9_write_back_iff_changed (filepath : string) (d : disk) (f : file) :
  files d !! filepath = Some f ->
  (fix_content (contents f) = contents f ->
     fix_markdown_file filepath d = (Returned false, d))
  /\ (fix_content (contents f) <> contents f -> writable f = true ->
        fix_markdown_file filepath d
        = (Returned true, overwritten filepath (fix_content (contents f)) d))
  /\ (forall b d', fix_markdown_file filepath d = (Returned b, d') ->
        (b = true <-> fix_content (contents f) <> contents f)
        /\ (b = true <-> d' = overwritten filepath (fix_content (contents f)) d)
        /\ (b = false <-> d' = d)).
Proof.
  intros Hf.
  assert (Hrun : fix_markdown_file filepath d
                 = if negb (text_eqb (fix_content (contents f)) (contents f))
                   then if writable f
                        then (Returned true,
                              overwritten filepath (fix_content (contents f)) d)
                        else (Raised PermissionError, d)
                   else (Returned false, d)).
  { unfold fix_markdown_file, bind, read_text. rewrite Hf.
    destruct (negb _); [|reflexivity].
    unfold write_text. rewrite Hf. destruct (writable f); reflexivity. }
  assert (Hneq : overwritten filepath (fix_content (contents f)) d <> d).
  { intros E. apply (f_equal written) in E. simpl in E.
    apply (f_equal (@length string)) in E. simpl in E. lia. }
  rewrite Hrun. clear Hrun.
  destruct (text_eqb (fix_content (contents f)) (contents f)) eqn:E; simpl.
  - apply text_eqb_eq in E. split; [reflexivity|]. split; [congruence|].
    intros b d' [= <- <-]. repeat split; congruence.
  - assert (Hdiff : fix_content (contents f) <> contents f).
    { intros H. apply text_eqb_eq in H. congruence. }
    split; [congruence|]. split; [now intros _ ->|].
    destruct (writable f); [|discriminate].
    intros b d' [= <- <-]. repeat split; congruence.
Qed.

Lemma C9_write_back_iff_changed_witness :
  files sample_disk !! "README.md" = Some fixed_file
  /\ fix_markdown_file "README.md" sample_disk = (Returned false, sample_disk)
  /\ files sample_disk !! "GUIDE.md" = Some unfixed_file
  /\ fix_markdown_file "GUIDE.md" sample_disk
     = (Returned true,
        overwritten "GUIDE.md" (str "See <https://example.com> for details")
          sample_disk).
Proof.
  assert (H1 : files sample_disk !! "README.md" = Some fixed_file)
    by (vm_compute; reflexivity).
  assert (H2 : files sample_disk !! "GUIDE.md" = Some unfixed_file)
    by (vm_compute; reflexivity).
  split; [exact H1|]. split.
  - apply (proj1 (C9_write_back_iff_changed "README.md" sample_disk fixed_file H1)).
    reflexivity.
  - split; [exact H2|].
    apply (proj1 (proj2 (C9_write_back_iff_changed "GUIDE.md" sample_disk
                           unfixed_file H2))).
    + discriminate.
    + reflexivity.
Defined.

(** ** The fence-language substitution *)

Lemma tag_no_occurrence s : occurs bare_fence s = false -> tag_fences s = s.
Proof.
  induction s as [|c s IH]; [reflexivity|]. intros H.
  rewrite tag_miss by now apply occurs_false_head.
  f_equal. apply IH. now apply occurs_false_tail in H.
Qed.

Lemma split_nonempty s : split s <> [].
Proof.
  induction s as [|c s IH]; cbn [split]; [discriminate|].
  destruct (is_char nl c); [discriminate|]. now destruct (split s).
Qed.

Lemma split_app_nl (x y : text) : split (x ++ nl :: y) = split x ++ split y.
Proof.
  induction x as [|c x IH]; cbn [app split].
  - now rewrite is_char_refl.
  - destruct (is_char nl c); [now rewrite IH|].
    rewrite IH. pose proof (split_nonempty x) as Hx.
    destruct (split x); [congruence | reflexivity].
Qed.

Lemma tag_keeps_leading_nl r : exists x, tag_fences (nl :: r) = nl :: x.
Proof.
  destruct (startswith bare_fence (nl :: r)) eqn:E.
  - apply startswith_inv in E. rewrite E, tag_hit. now eexists.
  - rewrite tag_miss by exact E. now eexists.
Qed.

Lemma tag_first_line r :
  exists x, tag_fences (fence_marker ++ nl :: r) = fence_marker ++ nl :: x.
Proof.
  destruct (tag_keeps_leading_nl r) as [x Hx]. exists x.
  change (fence_marker ++ nl :: r) with ("`" :: "`" :: "`" :: nl :: r)%char.
  rewrite !tag_miss by reflexivity. now rewrite Hx.
Qed.

Lemma tag_last_line (a : text) :
  exists x, tag_fences (a ++ nl :: fence_marker) = x ++ nl :: fence_marker.
Proof.
  induction a as [a IH] using text_length_ind.
  destruct (startswith bare_fence (a ++ nl :: fence_marker)) eqn:Hhit.
  - apply startswith_inv in Hhit.
    change (length bare_fence) with 5 in Hhit.
    change bare_fence with [nl; "`"; "`"; "`"; nl]%char in Hhit.
    destruct a as [|c1 [|c2 [|c3 [|c4 [|c5 a]]]]]; try discriminate Hhit.
    + (* the match ends at the newline of the last line *)
      injection Hhit as -> -> -> ->.
      exists (nl :: fence_marker ++ str "bash").
      change ([nl; "`"; "`"; "`"]%char ++ nl :: fence_marker)
        with (bare_fence ++ fence_marker).
      rewrite tag_hit. reflexivity.
    + injection Hhit as -> -> -> -> ->.
      destruct (IH a) as [x Hx]; [simpl; lia|].
      exists (bash_fence ++ x).
      change ((nl :: "`" :: "`" :: "`" :: nl :: a)%char ++ nl :: fence_marker)
        with (bare_fence ++ a ++ nl :: fence_marker).
      now rewrite tag_hit, Hx, <- app_assoc.
  - destruct a as [|c a].
    + exists []. now rewrite tag_no_occurrence.
    + rewrite <- app_comm_cons in *. rewrite tag_miss by exact Hhit.
      destruct (IH a) as [x Hx]; [simpl; lia|].
      exists (c :: x). now rewrite Hx.
Qed.

(** ** C10: a bare fence with no newline before it or after it *)

(** C10: the substitution changes nothing in a text with no occurrence of
    newline, three backticks, newline; a bare fence that is the first
    line of the content is the first line of the result, without a tag;
    a bare fence that is the last line of the content, with no newline
    after it, is the last line of the result, without a tag. *)
Theorem C10_fence_needs_newline_on_both_sides :
  (forall s, occurs bare_fence s = false -> tag_fences s = s)
  /\ tag_fences fence_marker = fence_marker
  /\ (forall r,
        head (split (tag_fences (fence_marker ++ nl :: r))) = Some fence_marker)
  /\ (forall a,
        last (split (tag_fences (a ++ nl :: fence_marker))) = Some fence_marker).
Proof.
  split; [exact tag_no_occurrence|]. split; [reflexivity|]. split.
  - intros r. destruct (tag_first_line r) as [x ->].
    now rewrite split_app_nl.
  - intros a. destruct (tag_last_line a) as [x ->].
    rewrite split_app_nl, last_app. reflexivity.
Qed.

Lemma C10_fence_needs_newline_on_both_sides_witness :
  occurs bare_fence (doc ["```"; "ls"; "```"]) = false
  /\ tag_fences (doc ["```"; "ls"; "```"]) = doc ["```"; "ls"; "```"].
Proof.
  split; [reflexivity|].
  apply (proj1 C10_fence_needs_newline_on_both_sides). reflexivity.
Defined.

(** ** C6: which fences get the language tag *)

Lemma startswith_app_long w u v :
  length w <= length u -> startswith w (u ++ v) = startswith w u.
Proof.
  revert u. induction w as [|a w IH]; intros [|c u] H; simpl in *;
    try reflexivity; try lia.
  rewrite IH by lia. reflexivity.
Qed.

Lemma tag_leftmost (a : text) : forall b,
  occurs bare_fence (a ++ nl :: fence_marker) = false ->
  tag_fences (a ++ bare_fence ++ b) = a ++ bash_fence ++ tag_fences b.
Proof.
  induction a as [|c a IH]; intros b H.
  - apply tag_hit.
  - rewrite <- !app_comm_cons. rewrite tag_miss.
    + f_equal. apply IH. rewrite <- app_comm_cons in H.
      now apply occurs_false_tail in H.
    + apply occurs_false_head in H.
      rewrite app_comm_cons.
      change (bare_fence ++ b) with ((nl :: fence_marker) ++ nl :: b).
      rewrite app_assoc, startswith_app_long; [exact H|].
      rewrite length_app. simpl. lia.
Qed.

(** C6 (fence language tag): only a bare fence with a newline before it
    and after it is tagged.  The bare opening fence of "```\nls\n```" is on
    the first line, with no newline before it: it is still the bare first
    line of the final output, and the closing fence, with no newline
    after it, stays bare too (the tagged second line is the copy of the
    opening fence that pass 2 adds).  In "```\n\nls" nothing is tagged.
    And of two bare fences on adjacent lines, "\n```\n```\n", only the
    first is tagged: its match takes the newline that the second would
    have to start with. *)
Theorem C6_first_line_fence_left_bare :
  fix_content (doc ["```"; "ls"; "```"])
  = doc ["```"; "```bash"; ""; "ls"; ""; "```"]
  /\ head (split (fix_content (doc ["```"; "ls"; "```"]))) = Some (str "```")
  /\ last (split (fix_content (doc ["```"; "ls"; "```"]))) = Some (str "```")
  /\ fix_content (doc ["```"; ""; "ls"]) = doc ["```"; ""; "ls"]
  /\ startswith bare_fence (drop 4 (doc [""; "```"; "```"; ""])) = true
  /\ tag_fences (doc [""; "```"; "```"; ""]) = doc [""; "```bash"; "```"; ""].
Proof. repeat split; reflexivity. Qed.

(** * Further properties of the script *)

(** ** [split] and [join] *)

Lemma join_cons_char c l ls : join ((c :: l) :: ls) = c :: join (l :: ls).
Proof. destruct ls; reflexivity. Qed.

Lemma join_split_aux (s : text) : join (split s) = s.
Proof.
  induction s as [|c s IH]; [reflexivity|]. cbn [split].
  pose proof (split_nonempty s) as Hne. revert IH Hne.
  destruct (split s) as [|l ls]; [congruence|]. intros IH _.
  destruct (is_char nl c) eqn:E.
  - apply is_char_true in E as <-.
    change (join ([] :: l :: ls)) with (nl :: join (l :: ls)).
    f_equal. exact IH.
  - rewrite join_cons_char. f_equal. exact IH.
Qed.

(** X1.  Joining the lines of a text with newlines gives the text back:
    ['\n'.join(s.split('\n')) == s]. *)
Theorem join_split (s : text) : join (split s) = s.
Proof. exact (join_split_aux s). Qed.

Lemma split_line (l : text) :
  forallb (fun c => negb (is_char nl c)) l = true -> split l = [l].
Proof.
  induction l as [|c l IH]; [reflexivity|]. cbn [forallb split].
  intros H. apply andb_true_iff in H as [Hc Hl].
  apply negb_true_iff in Hc. rewrite Hc, (IH Hl). reflexivity.
Qed.

(** X2.  Lines without newlines, at least one of them, are what [split] finds
    in their [join]. *)
Theorem split_join (ls : list text) :
  ls <> [] ->
  forallb (fun l => forallb (fun c => negb (is_char nl c)) l) ls = true ->
  split (join ls) = ls.
Proof.
  induction ls as [|l ls IH]; [congruence|]. intros _ H.
  cbn [forallb] in H. apply andb_true_iff in H as [Hl Hls].
  destruct ls as [|l' ls]; [now apply split_line|].
  change (join (l :: l' :: ls)) with (l ++ nl :: join (l' :: ls)).
  rewrite split_app_nl, (split_line l Hl), IH; [reflexivity | congruence | exact Hls].
Qed.

Lemma split_join_witness :
  map str ["a"; ""; "b"] <> []
  /\ forallb (fun l => forallb (fun c => negb (is_char nl c)) l)
       (map str ["a"; ""; "b"]) = true
  /\ split (join (map str ["a"; ""; "b"])) = map str ["a"; ""; "b"].
Proof.
  split; [discriminate|]. split; [reflexivity|].
  apply split_join; [discriminate | reflexivity].
Defined.

Lemma length_split_aux (s : text) :
  length (split s) = S (length (List.filter (is_char nl) s)).
Proof.
  induction s as [|c s IH]; [reflexivity|]. cbn [split List.filter].
  pose proof (split_nonempty s) as Hne.
  destruct (is_char nl c); cbn [length]; [now rewrite IH|].
  rewrite <- IH. destruct (split s); [congruence | reflexivity].
Qed.

(** X3.  The number of lines is one more than the number of newlines. *)
Theorem length_split (s : text) :
  length (split s) = S (length (List.filter (is_char nl) s)).
Proof. exact (length_split_aux s). Qed.

(** ** Pass 2 keeps every line *)

Lemma line_at_seq (lines : list text) :
  map (line_at lines) (seq 0 (length lines)) = lines.
Proof.
  induction lines as [|l lines IH]; [reflexivity|].
  cbn [length seq map]. f_equal.
  rewrite <- seq_shift, map_map. exact IH.
Qed.

Lemma line_at_In lines i : i < length lines -> In (line_at lines i) lines.
Proof. intros H. now apply nth_In. Qed.

Lemma fence_step_acc fixed_lines acc i :
  fence_step fixed_lines acc i = acc ++ fence_step fixed_lines [] i.
Proof.
  unfold fence_step.
  repeat match goal with
         | |- context [if ?b then _ else _] => destruct b
         end; cbn [app]; rewrite <- ?app_assoc; reflexivity.
Qed.

Lemma fence_step_emits fixed_lines i :
  [line_at fixed_lines i] `sublist_of` fence_step fixed_lines [] i
  /\ blank_or (line_at fixed_lines i) (fence_step fixed_lines [] i).
Proof.
  unfold fence_step, blank_or, blank_line.
  repeat match goal with
         | |- context [if ?b then _ else _] => destruct b
         end; cbn [app]; split;
    solve [ repeat first [apply sublist_cons | apply sublist_skip | apply sublist_nil]
          | repeat constructor; auto ].
Qed.

Lemma fence_step_plain fixed_lines i :
  is_fence (line_at fixed_lines i) = false ->
  fence_step fixed_lines [] i = [line_at fixed_lines i].
Proof. unfold fence_step. now intros ->. Qed.

Lemma fence_fold fixed_lines idx : forall acc,
  fold_left (fence_step fixed_lines) idx acc
  = acc ++ concat (map (fence_step fixed_lines []) idx).
Proof.
  induction idx as [|i idx IH]; intros acc; cbn [fold_left map concat].
  - now rewrite app_nil_r.
  - now rewrite IH, fence_step_acc, <- app_assoc.
Qed.

Lemma fence_pass_concat fixed_lines :
  fence_pass fixed_lines
  = concat (map (fence_step fixed_lines []) (seq 0 (length fixed_lines))).
Proof. unfold fence_pass. now rewrite fence_fold. Qed.

Lemma sublist_concat_map {A B} (f g : A -> list B) (idx : list A) :
  (forall i, In i idx -> f i `sublist_of` g i) ->
  concat (map f idx) `sublist_of` concat (map g idx).
Proof.
  induction idx as [|i idx IH]; intros H; cbn [map concat]; [constructor|].
  apply sublist_app; [apply H; now left | apply IH; intros; apply H; now right].
Qed.

Lemma concat_singletons {A B} (f : A -> B) (idx : list A) :
  concat (map (fun i => [f i]) idx) = map f idx.
Proof. induction idx as [|i idx IH]; cbn; [reflexivity | now rewrite IH]. Qed.

(** X4.  Pass 2 deletes nothing and reorders nothing: the lines it is given
    are a subsequence of the lines it returns, and every line it returns
    is blank or one of the lines it was given. *)
Theorem fence_pass_keeps_lines (fixed_lines : list text) :
  fixed_lines `sublist_of` fence_pass fixed_lines
  /\ (forall l, In l (fence_pass fixed_lines) -> l = blank_line \/ In l fixed_lines).
Proof.
  rewrite fence_pass_concat. split.
  - rewrite <- (line_at_seq fixed_lines) at 1.
    rewrite <- concat_singletons. apply sublist_concat_map.
    intros i _. apply fence_step_emits.
  - intros l Hl. apply in_concat in Hl as [e [He Hl]].
    apply in_map_iff in He as [i [<- Hi]]. apply in_seq in Hi.
    destruct (fence_step_emits fixed_lines i) as [_ Hb].
    unfold blank_or in Hb. rewrite Forall_forall in Hb.
    destruct (Hb l) as [->| ->]; [now apply list_elem_of_In | now left |].
    right. apply line_at_In. lia.
Qed.

Lemma fence_pass_without_fences_aux (fixed_lines : list text) :
  none_is is_fence fixed_lines = true -> fence_pass fixed_lines = fixed_lines.
Proof.
  intros H. rewrite fence_pass_concat.
  rewrite <- (line_at_seq fixed_lines) at 3.
  rewrite <- (concat_singletons (line_at fixed_lines)). f_equal. apply map_ext_in.
  intros i Hi. apply in_seq in Hi. apply fence_step_plain.
  unfold none_is in H. rewrite forallb_forall in H.
  apply negb_true_iff, H, line_at_In. lia.
Qed.

(** X5.  Where no line is a fence line, pass 2 changes nothing. *)
Theorem fence_pass_without_fences (fixed_lines : list text) :
  none_is is_fence fixed_lines = true -> fence_pass fixed_lines = fixed_lines.
Proof. exact (fence_pass_without_fences_aux fixed_lines). Qed.

Lemma fence_pass_without_fences_witness :
  none_is is_fence (map str ["Intro"; ""; "- item"]) = true
  /\ fence_pass (map str ["Intro"; ""; "- item"]) = map str ["Intro"; ""; "- item"].
Proof.
  split; [reflexivity|]. apply fence_pass_without_fences. reflexivity.
Defined.

(** ** Pass 1: what a turn of the loop emits and where it goes on *)

Lemma header_list_step_spec lines i acc :
  exists e,
    snd (header_list_step lines i acc) = acc ++ e
    /\ blank_or (line_at lines i) e
    /\ In (line_at lines i) e
    /\ (fst (header_list_step lines i acc) = i + 1
        \/ (fst (header_list_step lines i acc) = i + 2
            /\ is_header (line_at lines i) = true
            /\ is_header (line_at lines (i + 1)) = false
            /\ nonblank (line_at lines (i + 1)) = true))
    /\ (is_header (line_at lines i) = false ->
        fst (header_list_step lines i acc) = i + 1)
    /\ (is_header (line_at lines i) = false ->
        is_list (line_at lines i) = false -> e = [line_at lines i]).
Proof.
  unfold header_list_step, blank_or, blank_line.
  destruct (is_header (line_at lines i)) eqn:Hh.
  - destruct (i <? length lines - 1) eqn:Hn; cbn [andb].
    + destruct (nonblank (line_at lines (i + 1))) eqn:Hb; cbn [andb];
        [destruct (is_header (line_at lines (i + 1))) eqn:Hh'; cbn [negb]|];
        repeat match goal with
               | |- context [if ?b then _ else _] => destruct b
               end; cbn [fst snd]; rewrite <- ?app_assoc; cbn [app];
        (eexists; split; [reflexivity|]);
        (split; [repeat (apply List.Forall_cons; [auto|]); apply List.Forall_nil|]);
        (split; [cbn [In]; auto 10|]);
        (split; [first [left; lia | right; repeat split; auto; lia]|]);
        split; discriminate.
    + repeat match goal with
             | |- context [if ?b then _ else _] => destruct b
             end; cbn [fst snd]; rewrite <- ?app_assoc; cbn [app];
        (eexists; split; [reflexivity|]);
        (split; [repeat (apply List.Forall_cons; [auto|]); apply List.Forall_nil|]);
        (split; [cbn [In]; auto 10|]);
        (split; [left; lia|]); split; discriminate.
  - destruct (is_list (line_at lines i)) eqn:Hl;
      repeat match goal with
             | |- context [if ?b then _ else _] => destruct b
             end; cbn [fst snd]; rewrite <- ?app_assoc; cbn [app];
      (eexists; split; [reflexivity|]);
      (split; [repeat (apply List.Forall_cons; [auto|]); apply List.Forall_nil|]);
      (split; [cbn [In]; auto 10|]);
      (split; [left; lia|]); (split; [intros _; lia|]);
      first [discriminate | reflexivity | intros _ _; reflexivity].
Qed.

Lemma In_sublist {A} (x : A) (e : list A) : In x e -> [x] `sublist_of` e.
Proof.
  induction e as [|y e IH]; [intros []|]. intros [->|H].
  - apply sublist_skip, sublist_nil_l.
  - apply sublist_cons, IH, H.
Qed.

Lemma drop_line_at lines : forall i,
  i < length lines -> drop i lines = line_at lines i :: drop (S i) lines.
Proof.
  induction lines as [|l lines IH]; intros i H; [simpl in H; lia|].
  destruct i as [|i]; [reflexivity|]. simpl in H.
  change (drop (S i) (l :: lines)) with (drop i lines).
  rewrite IH by lia. reflexivity.
Qed.

Lemma none_is_line_at p lines i :
  none_is p lines = true -> i < length lines -> p (line_at lines i) = false.
Proof.
  unfold none_is. rewrite forallb_forall. intros H Hi.
  apply negb_true_iff, H, line_at_In, Hi.
Qed.

(** The loop only adds to [fixed_lines], and what it adds is blank or a
    line of the input. *)
Lemma header_list_loop_adds lines fuel : forall i acc,
  exists e, header_list_loop fuel lines i acc = acc ++ e
            /\ (forall l, In l e -> l = blank_line \/ In l lines).
Proof.
  induction fuel as [|fuel IH]; intros i acc; cbn [header_list_loop].
  - exists []. split; [now rewrite app_nil_r | intros l []].
  - destruct (Nat.ltb_spec i (length lines)) as [Hi|Hi];
      [|exists []; split; [now rewrite app_nil_r | intros l []]].
    destruct (header_list_step_spec lines i acc) as (e1 & He1 & Hb & _).
    destruct (header_list_step lines i acc) as [i' acc']. cbn [snd] in He1.
    subst acc'. destruct (IH i' (acc ++ e1)) as (e2 & -> & He2).
    exists (e1 ++ e2). split; [now rewrite app_assoc|].
    intros l Hl. apply in_app_or in Hl as [Hl|Hl]; [|now apply He2].
    unfold blank_or in Hb. rewrite Forall_forall in Hb.
    apply list_elem_of_In in Hl.
    destruct (Hb l Hl) as [->| ->]; [now left | right; now apply line_at_In].
Qed.

Lemma header_list_loop_keeps_acc lines fuel i acc l :
  In l acc -> In l (header_list_loop fuel lines i acc).
Proof.
  intros H. destruct (header_list_loop_adds lines fuel i acc) as (e & -> & _).
  apply in_or_app. now left.
Qed.

Lemma kept_from_end lines i : length lines <= i -> kept_from lines i = [].
Proof.
  intros H. unfold kept_from.
  now replace (length lines - i) with 0 by lia.
Qed.

Lemma kept_from_step lines i :
  i < length lines ->
  kept_from lines i
  = (if kept_by_pass1 lines i then [line_at lines i] else [])
    ++ kept_from lines (i + 1).
Proof.
  intros H. unfold kept_from.
  replace (length lines - i) with (S (length lines - (i + 1))) by lia.
  cbn [seq List.filter]. replace (S i) with (i + 1) by lia.
  now destruct (kept_by_pass1 lines i).
Qed.

Lemma kept_from_skipped lines i :
  is_header (line_at lines i) = true ->
  is_header (line_at lines (i + 1)) = false ->
  nonblank (line_at lines (i + 1)) = true ->
  kept_from lines (i + 1) = kept_from lines (i + 1 + 1).
Proof.
  intros Hh Hh' Hb.
  destruct (Nat.lt_ge_cases (i + 1) (length lines)) as [Hlt|Hge].
  - rewrite (kept_from_step lines (i + 1) Hlt).
    unfold kept_by_pass1 at 1.
    replace (i + 1 - 1) with i by lia. rewrite Hh, Hh', Hb.
    now replace (i + 1 =? 0) with false by (symmetry; apply Nat.eqb_neq; lia).
  - now rewrite !kept_from_end by lia.
Qed.

(** The loop emits, in order, every line from index [i] on that is not a
    non-blank line that is not a heading and comes right after a
    heading. *)
Lemma header_list_loop_keeps lines fuel : forall i acc,
  length lines - i <= fuel ->
  exists e, header_list_loop fuel lines i acc = acc ++ e
            /\ kept_from lines i `sublist_of` e.
Proof.
  induction fuel as [|fuel IH]; intros i acc Hfuel; cbn [header_list_loop].
  - exists []. split; [now rewrite app_nil_r|].
    rewrite kept_from_end by lia. constructor.
  - destruct (Nat.ltb_spec i (length lines)) as [Hi|Hi].
    + destruct (header_list_step_spec lines i acc)
        as (e1 & He1 & _ & Hin & Hnext & _).
      destruct (header_list_step lines i acc) as [i' acc'].
      cbn [fst snd] in *. subst acc'.
      assert (Hhere : (if kept_by_pass1 lines i then [line_at lines i] else [])
                      `sublist_of` e1).
      { destruct (kept_by_pass1 lines i);
          [now apply In_sublist | apply sublist_nil_l]. }
      rewrite (kept_from_step lines i Hi).
      destruct Hnext as [->|(-> & Hh & Hh' & Hb)].
      * destruct (IH (i + 1) (acc ++ e1)) as (e2 & -> & Hsub); [lia|].
        exists (e1 ++ e2). split; [now rewrite app_assoc|].
        now apply sublist_app.
      * replace (i + 2) with (i + 1 + 1) by lia.
        destruct (IH (i + 1 + 1) (acc ++ e1)) as (e2 & -> & Hsub); [lia|].
        exists (e1 ++ e2). split; [now rewrite app_assoc|].
        rewrite (kept_from_skipped lines i Hh Hh' Hb).
        now apply sublist_app.
    + exists []. split; [now rewrite app_nil_r|].
      rewrite kept_from_end by lia. constructor.
Qed.

Lemma header_list_loop_no_headers lines fuel :
  none_is is_header lines = true ->
  forall i acc, length lines - i <= fuel ->
  exists e, header_list_loop fuel lines i acc = acc ++ e
            /\ drop i lines `sublist_of` e.
Proof.
  intros Hnone. induction fuel as [|fuel IH]; intros i acc Hfuel;
    cbn [header_list_loop].
  - exists []. split; [now rewrite app_nil_r|]. rewrite drop_ge by lia. constructor.
  - destruct (Nat.ltb_spec i (length lines)) as [Hi|Hi].
    + destruct (header_list_step_spec lines i acc)
        as (e1 & He1 & _ & Hin & _ & Hplain & _).
      specialize (Hplain (none_is_line_at _ _ _ Hnone Hi)).
      destruct (header_list_step lines i acc) as [i' acc'].
      cbn [fst snd] in *. subst acc' i'.
      destruct (IH (i + 1) (acc ++ e1)) as (e2 & -> & Hsub); [lia|].
      exists (e1 ++ e2). split; [now rewrite app_assoc|].
      rewrite (drop_line_at lines i Hi).
      change (line_at lines i :: drop (S i) lines)
        with ([line_at lines i] ++ drop (S i) lines).
      apply sublist_app; [now apply In_sublist|].
      now replace (S i) with (i + 1) by lia.
    + exists []. split; [now rewrite app_nil_r|].
      rewrite drop_ge by lia. constructor.
Qed.

Lemma header_list_loop_plain lines fuel :
  none_is is_header lines = true -> none_is is_list lines = true ->
  forall i acc, length lines - i <= fuel ->
  header_list_loop fuel lines i acc = acc ++ drop i lines.
Proof.
  intros Hh Hl. induction fuel as [|fuel IH]; intros i acc Hfuel;
    cbn [header_list_loop].
  - rewrite drop_ge by lia. now rewrite app_nil_r.
  - destruct (Nat.ltb_spec i (length lines)) as [Hi|Hi].
    + destruct (header_list_step_spec lines i acc)
        as (e1 & He1 & _ & _ & _ & Hnext & Hplain).
      specialize (Hnext (none_is_line_at _ _ _ Hh Hi)).
      specialize (Hplain (none_is_line_at _ _ _ Hh Hi)
                         (none_is_line_at _ _ _ Hl Hi)).
      destruct (header_list_step lines i acc) as [i' acc'].
      cbn [fst snd] in *. subst acc' i' e1.
      rewrite IH by lia. rewrite (drop_line_at lines i Hi), <- app_assoc.
      now replace (S i) with (i + 1) by lia.
    + rewrite drop_ge by lia. now rewrite app_nil_r.
Qed.

(** ** Pass 1: what it keeps *)

(** X6.  Pass 1 invents nothing: each line it returns is blank or a line of
    its input. *)
Theorem header_list_pass_adds_only_blank (lines : list text) (l : text) :
  In l (header_list_pass lines) -> l = blank_line \/ In l lines.
Proof.
  unfold header_list_pass.
  destruct (header_list_loop_adds lines (length lines) 0 []) as (e & -> & He).
  apply He.
Qed.

(** X7.  Pass 1 keeps, in their order and as often as they occur, all the
    lines of its input but the non-blank lines that are not headings and
    come right after a heading: those lines are a subsequence of its
    output.  So the first line, headings, blank lines and every line
    after a line that is not a heading are never lost. *)
Theorem header_list_pass_keeps (lines : list text) :
  kept_lines lines `sublist_of` header_list_pass lines.
Proof.
  unfold header_list_pass.
  destruct (header_list_loop_keeps lines (length lines) 0 []) as (e & -> & Hsub);
    [lia|].
  unfold kept_from in Hsub. now rewrite Nat.sub_0_r in Hsub.
Qed.

(** X8.  Where no line is a heading, pass 1 deletes nothing and reorders
    nothing: its input is a subsequence of its output. *)
Theorem header_list_pass_without_headers (lines : list text) :
  none_is is_header lines = true ->
  lines `sublist_of` header_list_pass lines.
Proof.
  intros H. unfold header_list_pass.
  destruct (header_list_loop_no_headers lines (length lines) H 0 [])
    as (e & -> & Hsub); [lia|]. exact Hsub.
Qed.

Lemma header_list_pass_without_headers_witness :
  none_is is_header (map str ["Para"; "- item"; "Para2"]) = true
  /\ map str ["Para"; "- item"; "Para2"]
     `sublist_of` header_list_pass (map str ["Para"; "- item"; "Para2"]).
Proof.
  split; [reflexivity|]. apply header_list_pass_without_headers. reflexivity.
Defined.

Lemma header_list_pass_plain_aux (lines : list text) :
  none_is is_header lines = true -> none_is is_list lines = true ->
  header_list_pass lines = lines.
Proof.
  intros Hh Hl. unfold header_list_pass.
  now rewrite (header_list_loop_plain lines (length lines) Hh Hl) by lia.
Qed.

(** X9.  Where no line is a heading or a list item, pass 1 changes nothing. *)
Theorem header_list_pass_plain (lines : list text) :
  none_is is_header lines = true -> none_is is_list lines = true ->
  header_list_pass lines = lines.
Proof. exact (header_list_pass_plain_aux lines). Qed.

Lemma header_list_pass_plain_witness :
  none_is is_header (map str ["Para"; ""; "```"; "#tag"]) = true
  /\ none_is is_list (map str ["Para"; ""; "```"; "#tag"]) = true
  /\ header_list_pass (map str ["Para"; ""; "```"; "#tag"])
     = map str ["Para"; ""; "```"; "#tag"].
Proof.
  split; [reflexivity|]. split; [reflexivity|].
  apply header_list_pass_plain; reflexivity.
Defined.

(** X10.  A content without heading, list-item or fence lines goes through the
    two line passes unchanged: only the substitutions act on it. *)
Theorem fix_content_plain (content : text) :
  none_is is_header (split content) = true ->
  none_is is_list (split content) = true ->
  none_is is_fence (split content) = true ->
  fix_content content = substitutions content.
Proof.
  intros Hh Hl Hf. unfold fix_content.
  rewrite (header_list_pass_plain_aux _ Hh Hl), (fence_pass_without_fences_aux _ Hf).
  now rewrite join_split_aux.
Qed.

Lemma fix_content_plain_witness :
  none_is is_header (split (doc ["See http://a.b now"; ""; "bye"])) = true
  /\ none_is is_list (split (doc ["See http://a.b now"; ""; "bye"])) = true
  /\ none_is is_fence (split (doc ["See http://a.b now"; ""; "bye"])) = true
  /\ fix_content (doc ["See http://a.b now"; ""; "bye"])
     = substitutions (doc ["See http://a.b now"; ""; "bye"]).
Proof.
  split; [reflexivity|]. split; [reflexivity|]. split; [reflexivity|].
  apply fix_content_plain; reflexivity.
Defined.

(** ** What a match of a pattern looks like *)

Lemma one_inv {A} p (k : text -> option A) s x :
  Re.one p k s = Some x -> exists c r, s = c :: r /\ p c = true /\ k r = Some x.
Proof.
  destruct s as [|c r]; [discriminate|]. simpl.
  destruct (p c) eqn:E; [|discriminate]. intros H. now exists c, r.
Qed.

Lemma lit_inv {A} w (k : text -> option A) s x :
  Re.lit w k s = Some x -> exists r, s = w ++ r /\ k r = Some x.
Proof.
  rewrite lit_spec. destruct (startswith w s) eqn:E; [|discriminate].
  intros H. exists (drop (length w) s). split; [now apply startswith_inv | exact H].
Qed.

Lemma upto_inv {A} n p (k : text -> option A) : forall s x,
  Re.upto n p k s = Some x ->
  exists a r, s = a ++ r /\ forallb p a = true /\ length a <= n /\ k r = Some x.
Proof.
  induction n as [|n IH]; intros s x H.
  - exists [], s. repeat split; [simpl; lia|]. now destruct s.
  - destruct s as [|c s]; [exists [], []; repeat split; [simpl; lia | exact H]|].
    simpl in H. destruct (p c) eqn:E.
    + destruct (Re.upto n p k s) as [y|] eqn:E'.
      * injection H as ->. destruct (IH s x E') as (a & r & -> & Ha & Hn & Hk).
        exists (c :: a), r. repeat split; [simpl; now rewrite E | simpl; lia | exact Hk].
      * exists [], (c :: s). repeat split; [simpl; lia | exact H].
    + exists [], (c :: s). repeat split; [simpl; lia | exact H].
Qed.

Lemma many_inv {A} p (k : text -> option A) s x :
  Re.many p k s = Some x ->
  exists a r, s = a ++ r /\ forallb p a = true /\ k r = Some x.
Proof.
  intros H. destruct (upto_inv _ _ _ _ _ H) as (a & r & ? & ? & _ & ?).
  now exists a, r.
Qed.

Lemma many1_inv {A} p (k : text -> option A) s x :
  Re.many1 p k s = Some x ->
  exists a r, s = a ++ r /\ a <> [] /\ forallb p a = true /\ k r = Some x.
Proof.
  intros H. apply one_inv in H as (c & s' & -> & Hc & H).
  apply many_inv in H as (a & r & -> & Ha & Hk).
  exists (c :: a), r. repeat split; [discriminate | simpl; now rewrite Hc | exact Hk].
Qed.

(** A greedy repetition followed by something that succeeds on the rest
    takes the whole run when the rest does not start with a character of
    the class. *)
Lemma upto_run {A} p (k : text -> option A) r x :
  k r = Some x ->
  match r with c :: _ => p c = false | [] => True end ->
  forall a n, forallb p a = true -> length a <= n ->
  Re.upto n p k (a ++ r) = Some x.
Proof.
  intros Hk Hr. induction a as [|c a IH]; intros n Ha Hn.
  - destruct n as [|n]; [now destruct r|]. destruct r as [|c r]; [exact Hk|].
    simpl. now rewrite Hr.
  - destruct n as [|n]; [simpl in Hn; lia|]. simpl in Ha, Hn |- *.
    apply andb_true_iff in Ha as [Hc Ha]. rewrite Hc, IH; [reflexivity | exact Ha | lia].
Qed.

Lemma between_app (x y : text) : Re.between (x ++ y) y = x.
Proof.
  unfold Re.between. rewrite length_app.
  replace (length x + length y - length y) with (length x) by lia.
  now rewrite take_app_length.
Qed.

Lemma angle_brackets_spec (w1 w2 : ascii) (body r : text) :
  angle_brackets (w1 :: body ++ w2 :: r) (body ++ w2 :: r) (w2 :: r) r
  = (length (w1 :: body ++ [w2]), w1 :: str "<" ++ body ++ str ">" ++ [w2]).
Proof.
  unfold angle_brackets. f_equal.
  - simpl. rewrite !length_app. simpl. lia.
  - change (w1 :: body ++ w2 :: r) with ([w1] ++ body ++ w2 :: r).
    change (w2 :: r) with ([w2] ++ r).
    now rewrite (between_app [w1]), (between_app body), (between_app [w2]).
Qed.

Lemma url_re_match_aux (s : text) (n : nat) (repl : text) :
  url_re s = Some (n, repl) ->
  exists w1 body w2 r,
    s = w1 :: body ++ w2 :: r
    /\ is_space w1 = true /\ url_shape body /\ is_space w2 = true
    /\ n = length (w1 :: body ++ [w2])
    /\ repl = w1 :: str "<" ++ body ++ str ">" ++ [w2].
Proof.
  unfold url_re. intros H.
  apply one_inv in H as (w1 & s1 & -> & Hw1 & H).
  pose proof H as H0.
  apply lit_inv in H as (t1 & -> & H).
  apply upto_inv in H as (a & t2 & -> & Ha & Hlen & H).
  apply lit_inv in H as (t3 & -> & H).
  apply many1_inv in H as (run & s2 & -> & Hne & Hrun & H).
  apply one_inv in H as (w2 & s3 & -> & Hw2 & H).
  clear H0.
  set (body := str "http" ++ a ++ str "://" ++ run).
  assert (Hs : str "http" ++ a ++ str "://" ++ run ++ w2 :: s3 = body ++ w2 :: s3)
    by (unfold body; now rewrite <- !app_assoc).
  rewrite Hs in H |- *. rewrite angle_brackets_spec in H. injection H as <- <-.
  exists w1, body, w2, s3. repeat split; try assumption.
  exists (str "http" ++ a ++ str "://"), run.
  split; [unfold body; now rewrite <- !app_assoc|].
  split; [|now split].
  destruct a as [|c [|c' a]]; [now left | | simpl in Hlen; lia].
  simpl in Ha. rewrite andb_true_r in Ha. apply is_char_true in Ha as <-.
  now right.
Qed.

(** X15.  Where the URL pattern matches, the match is a whitespace character,
    a URL and a whitespace character, and the replacement is the same
    with the URL between angle brackets. *)
Theorem url_re_match (s : text) (n : nat) (repl : text) :
  url_re s = Some (n, repl) ->
  exists w1 body w2 r,
    s = w1 :: body ++ w2 :: r
    /\ is_space w1 = true /\ url_shape body /\ is_space w2 = true
    /\ n = length (w1 :: body ++ [w2])
    /\ repl = w1 :: str "<" ++ body ++ str ">" ++ [w2].
Proof. exact (url_re_match_aux s n repl). Qed.

Lemma email_re_match_aux (s : text) (n : nat) (repl : text) :
  email_re s = Some (n, repl) ->
  exists w1 body w2 r,
    s = w1 :: body ++ w2 :: r
    /\ is_space w1 = true /\ email_shape body /\ is_space w2 = true
    /\ n = length (w1 :: body ++ [w2])
    /\ repl = w1 :: str "<" ++ body ++ str ">" ++ [w2].
Proof.
  unfold email_re. intros H.
  apply one_inv in H as (w1 & s1 & -> & Hw1 & H).
  apply many1_inv in H as (name & t1 & -> & Hname & Hname' & H).
  apply one_inv in H as (c1 & t2 & -> & Hc1 & H).
  apply is_char_true in Hc1 as <-.
  apply many1_inv in H as (domain & t3 & -> & Hdom & Hdom' & H).
  apply one_inv in H as (c2 & t4 & -> & Hc2 & H).
  apply is_char_true in Hc2 as <-.
  apply many1_inv in H as (tld & s2 & -> & Htld & Htld' & H).
  apply one_inv in H as (w2 & s3 & -> & Hw2 & H).
  set (body := name ++ str "@" ++ domain ++ str "." ++ tld).
  assert (Hs : name ++ "@"%char :: domain ++ "."%char :: tld ++ w2 :: s3
               = body ++ w2 :: s3)
    by (unfold body; now rewrite <- !app_assoc).
  rewrite Hs in H |- *. rewrite angle_brackets_spec in H. injection H as <- <-.
  exists w1, body, w2, s3. repeat split; try assumption.
  now exists name, domain, tld.
Qed.

(** X16.  Where the e-mail pattern matches, the match is a whitespace
    character, an address and a whitespace character, and the replacement
    is the same with the address between angle brackets. *)
Theorem email_re_match (s : text) (n : nat) (repl : text) :
  email_re s = Some (n, repl) ->
  exists w1 body w2 r,
    s = w1 :: body ++ w2 :: r
    /\ is_space w1 = true /\ email_shape body /\ is_space w2 = true
    /\ n = length (w1 :: body ++ [w2])
    /\ repl = w1 :: str "<" ++ body ++ str ">" ++ [w2].
Proof. exact (email_re_match_aux s n repl). Qed.

(** ** What the substitutions leave alone *)

Lemma sub_cons m c s :
  Re.sub m (c :: s)
  = match m (c :: s) with
    | Some (n, repl) => repl ++ Re.sub m (drop (n - 1) s)
    | None => c :: Re.sub m s
    end.
Proof.
  unfold Re.sub at 1. cbn [Re.sub_from].
  destruct (m (c :: s)) as [[n repl]|]; [|reflexivity].
  now rewrite sub_from_drop.
Qed.

(** A substitution whose replacements differ from what they replace only
    in characters that [q] rejects changes nothing that [q] keeps. *)
Lemma sub_filter (q : ascii -> bool) m :
  (forall s n repl, m s = Some (n, repl) ->
     1 <= n /\ List.filter q repl = List.filter q (take n s)) ->
  forall s, List.filter q (Re.sub m s) = List.filter q s.
Proof.
  intros Hm s. induction s as [s IH] using text_length_ind.
  destruct s as [|c s]; [reflexivity|]. rewrite sub_cons.
  destruct (m (c :: s)) as [[n repl]|] eqn:E.
  - destruct (Hm _ _ _ E) as [Hn Hq].
    rewrite List.filter_app, Hq, IH
      by (rewrite length_drop; simpl; lia).
    rewrite <- List.filter_app. f_equal.
    destruct n as [|n]; [lia|].
    cbn [Nat.sub]. rewrite Nat.sub_0_r.
    change (take (S n) (c :: s)) with (c :: take n s).
    now rewrite <- app_comm_cons, take_drop.
  - cbn [List.filter]. rewrite IH by (simpl; lia). reflexivity.
Qed.

(** A substitution that can only match where [w] occurs changes nothing
    in a text where [w] does not occur. *)
Lemma sub_no_trigger m w :
  (forall s h, m s = Some h -> occurs w s = true) ->
  forall s, occurs w s = false -> Re.sub m s = s.
Proof.
  intros Hm s. induction s as [|c s IH]; [reflexivity|]. intros H.
  rewrite sub_cons. destruct (m (c :: s)) as [h|] eqn:E.
  - apply Hm in E. congruence.
  - f_equal. apply IH. now apply occurs_false_tail in H.
Qed.

Lemma occurs_app w a b : occurs w (a ++ w ++ b) = true.
Proof.
  induction a as [|c a IH].
  - destruct (w ++ b) eqn:E; simpl; rewrite <- ?E, startswith_app; reflexivity.
  - rewrite <- app_comm_cons, occurs_cons, IH. apply orb_true_r.
Qed.

Lemma filter_angle_brackets (q : ascii -> bool) (w1 w2 : ascii) (body : text) :
  q "<"%char = false -> q ">"%char = false ->
  List.filter q (w1 :: str "<" ++ body ++ str ">" ++ [w2])
  = List.filter q (w1 :: body ++ [w2]).
Proof.
  intros Hl Hg.
  change (w1 :: str "<" ++ body ++ str ">" ++ [w2])
    with ([w1] ++ ["<"%char] ++ body ++ [">"%char] ++ [w2]).
  change (w1 :: body ++ [w2]) with ([w1] ++ body ++ [w2]).
  rewrite !List.filter_app. cbn [List.filter]. now rewrite Hl, Hg.
Qed.

Lemma take_match (w1 w2 : ascii) (body r : text) :
  take (length (w1 :: body ++ [w2])) (w1 :: body ++ w2 :: r) = w1 :: body ++ [w2].
Proof.
  change (w1 :: body ++ w2 :: r) with ((w1 :: body) ++ [w2] ++ r).
  rewrite app_assoc. now rewrite take_app_length.
Qed.

Lemma wrap_filter (q : ascii -> bool) :
  q "<"%char = false -> q ">"%char = false ->
  forall s, List.filter q (wrap_urls s) = List.filter q s
            /\ List.filter q (wrap_emails s) = List.filter q s.
Proof.
  intros Hl Hg s. split; apply sub_filter; intros t n repl H.
  - apply url_re_match_aux in H as (w1 & body & w2 & r & -> & _ & _ & _ & -> & ->).
    split; [simpl; lia|]. now rewrite take_match, filter_angle_brackets.
  - apply email_re_match_aux in H as (w1 & body & w2 & r & -> & _ & _ & _ & -> & ->).
    split; [simpl; lia|]. now rewrite take_match, filter_angle_brackets.
Qed.

(** X17.  URL and e-mail wrapping only insert angle brackets: with all angle
    brackets removed, the text after either substitution is the text
    before it; so neither changes the number of lines. *)
Theorem wrapping_only_adds_angle_brackets (s : text) :
  without_angles (wrap_urls s) = without_angles s
  /\ without_angles (wrap_emails s) = without_angles s
  /\ length (split (wrap_urls s)) = length (split s)
  /\ length (split (wrap_emails s)) = length (split s).
Proof.
  destruct (wrap_filter (fun c => negb (is_angle c)) eq_refl eq_refl s) as [Hu He].
  destruct (wrap_filter (is_char nl) eq_refl eq_refl s) as [Hu' He'].
  split; [exact Hu|]. split; [exact He|].
  rewrite !length_split_aux, Hu', He'. now split.
Qed.

Lemma url_re_trigger s h : url_re s = Some h -> occurs (str "://") s = true.
Proof.
  destruct h as [n repl]. intros H.
  apply url_re_match_aux in H
    as (w1 & body & w2 & r & -> & _ & (scheme & run & -> & Hs & _) & _).
  destruct Hs as [-> | ->].
  - change (w1 :: (str "http://" ++ run) ++ w2 :: r)
      with ((w1 :: str "http") ++ str "://" ++ (run ++ w2 :: r)).
    apply occurs_app.
  - change (w1 :: (str "https://" ++ run) ++ w2 :: r)
      with ((w1 :: str "https") ++ str "://" ++ (run ++ w2 :: r)).
    apply occurs_app.
Qed.

Lemma email_re_trigger s h : email_re s = Some h -> occurs (str "@") s = true.
Proof.
  destruct h as [n repl]. intros H.
  apply email_re_match_aux in H
    as (w1 & body & w2 & r & -> & _ & (name & domain & tld & -> & _) & _).
  rewrite <- !app_assoc.
  change (w1 :: name ++ str "@" ++ domain ++ str "." ++ tld ++ w2 :: r)
    with ((w1 :: name) ++ str "@" ++ (domain ++ str "." ++ tld ++ w2 :: r)).
  apply occurs_app.
Qed.

(** X18.  A text in which "://" does not occur is left as it is by URL
    wrapping; a text in which "@" does not occur is left as it is by
    e-mail wrapping. *)
Theorem wrapping_needs_trigger (s : text) :
  (occurs (str "://") s = false -> wrap_urls s = s)
  /\ (occurs (str "@") s = false -> wrap_emails s = s).
Proof.
  split.
  - apply sub_no_trigger. exact url_re_trigger.
  - apply sub_no_trigger. exact email_re_trigger.
Qed.

Lemma wrapping_needs_trigger_witness :
  occurs (str "://") (str "mail bob@example.org now") = false
  /\ wrap_urls (str "mail bob@example.org now") = str "mail bob@example.org now"
  /\ occurs (str "@") (str "see http://example.org now") = false
  /\ wrap_emails (str "see http://example.org now") = str "see http://example.org now".
Proof.
  split; [reflexivity|]. split.
  - apply (proj1 (wrapping_needs_trigger _)). reflexivity.
  - split; [reflexivity|]. apply (proj2 (wrapping_needs_trigger _)). reflexivity.
Defined.

(** *** Blank-line collapsing *)

Lemma take_lead s : take (lead s) s = take_while (is_char nl) s.
Proof.
  unfold lead. induction s as [|c s IH]; [reflexivity|]. simpl.
  destruct (is_char nl c); simpl; [now rewrite IH | reflexivity].
Qed.

Lemma filter_take_while_neg p s :
  List.filter (fun c => negb (p c)) (take_while p s) = [].
Proof.
  induction s as [|c s IH]; [reflexivity|]. simpl.
  destruct (p c) eqn:E; [|reflexivity]. simpl. now rewrite E.
Qed.

Lemma collapse_without_runs s :
  occurs three_newlines s = false -> collapse_blank_lines s = s.
Proof.
  induction s as [|c s IH]; [reflexivity|]. intros H.
  pose proof (occurs_false_head _ _ H) as Hhead.
  rewrite startswith_three in Hhead. apply Nat.leb_gt in Hhead.
  rewrite collapse_miss by exact Hhead.
  f_equal. apply IH. now apply occurs_false_tail in H.
Qed.

(** X19.  Blank-line collapsing leaves a text without three consecutive
    newlines as it is, so collapsing twice is collapsing once; and all it
    ever removes is newlines. *)
Theorem collapse_blank_lines_idempotent (s : text) :
  (occurs three_newlines s = false -> collapse_blank_lines s = s)
  /\ collapse_blank_lines (collapse_blank_lines s) = collapse_blank_lines s
  /\ List.filter (fun c => negb (is_char nl c)) (collapse_blank_lines s)
     = List.filter (fun c => negb (is_char nl c)) s.
Proof.
  split; [apply collapse_without_runs|]. split.
  - apply collapse_without_runs, collapse_spec.
  - apply sub_filter. intros t n repl H. rewrite blank_run_re_spec in H.
    destruct (Nat.leb_spec 3 (lead t)); [|discriminate].
    injection H as <- <-. split; [lia|].
    rewrite take_lead, filter_take_while_neg. reflexivity.
Qed.

Lemma collapse_blank_lines_idempotent_witness :
  occurs three_newlines (doc ["a"; ""; "b"]) = false
  /\ collapse_blank_lines (doc ["a"; ""; "b"]) = doc ["a"; ""; "b"].
Proof.
  split; [reflexivity|].
  apply (proj1 (collapse_blank_lines_idempotent _)). reflexivity.
Defined.

(** *** Fence tagging *)

Lemma tag_filter (q : ascii -> bool) s :
  forallb (fun c => negb (q c)) (str "bash") = true ->
  List.filter q (tag_fences s) = List.filter q s.
Proof.
  intros Hq. apply sub_filter. intros t n repl H.
  rewrite bare_fence_re_spec in H.
  destruct (startswith bare_fence t) eqn:E; [|discriminate].
  injection H as <- <-. split; [lia|].
  apply startswith_inv in E. rewrite E.
  change (take 5 (bare_fence ++ drop (length bare_fence) t)) with bare_fence.
  cbn [forallb str list_ascii_of_string] in Hq.
  repeat (apply andb_true_iff in Hq as [?%negb_true_iff Hq]).
  change bash_fence
    with ([nl; "`"; "`"; "`"]%char ++ ["b"; "a"; "s"; "h"]%char ++ [nl]).
  change bare_fence with ([nl; "`"; "`"; "`"]%char ++ [nl]).
  rewrite !List.filter_app. f_equal.
  cbn [List.filter app].
  repeat match goal with H : q _ = false |- _ => rewrite H; clear H end.
  reflexivity.
Qed.

Lemma tag_length (s : text) : length s <= length (tag_fences s).
Proof.
  induction s as [s IH] using text_length_ind.
  destruct (startswith bare_fence s) eqn:E.
  - apply startswith_inv in E. change (length bare_fence) with 5 in E.
    assert (Hlen : length s = 5 + length (drop 5 s)).
    { rewrite E at 1. rewrite length_app. reflexivity. }
    rewrite E at 2. rewrite tag_hit, length_app.
    change (length bash_fence) with 9.
    pose proof (IH (drop 5 s) ltac:(lia)). lia.
  - destruct s as [|c s]; [simpl; lia|].
    rewrite tag_miss by exact E. simpl.
    pose proof (IH s ltac:(simpl; lia)). lia.
Qed.

(** X20.  Fence tagging only inserts the letters of "bash": every other
    character of the text is kept, in order; in particular the number of
    lines stays the same and the text never gets shorter. *)
Theorem tag_fences_only_adds_bash (s : text) :
  (forall q : ascii -> bool,
     forallb (fun c => negb (q c)) (str "bash") = true ->
     List.filter q (tag_fences s) = List.filter q s)
  /\ length (split (tag_fences s)) = length (split s)
  /\ length s <= length (tag_fences s).
Proof.
  split; [intros q; apply tag_filter|]. split; [|apply tag_length].
  rewrite !length_split_aux. do 2 f_equal. now apply tag_filter.
Qed.

Lemma tag_fences_only_adds_bash_witness :
  forallb (fun c => negb (is_char nl c)) (str "bash") = true
  /\ List.filter (is_char nl) (tag_fences (doc ["a"; "```"; "b"]))
     = List.filter (is_char nl) (doc ["a"; "```"; "b"]).
Proof.
  split; [reflexivity|].
  apply (proj1 (tag_fences_only_adds_bash _)). reflexivity.
Defined.

(** ** Which lines are headings and list items *)

Lemma forallb_is_char c (a : text) :
  forallb (is_char c) a = true -> a = repeat c (length a).
Proof.
  induction a as [|x a IH]; [reflexivity|]. simpl. intros H.
  apply andb_true_iff in H as [Hx Ha]. apply is_char_true in Hx as <-.
  now rewrite <- IH.
Qed.

Lemma forallb_repeat (p : ascii -> bool) c k :
  p c = true -> forallb p (repeat c k) = true.
Proof. intros H. induction k; simpl; [reflexivity | now rewrite H]. Qed.

Lemma many_total p (s : text) : Re.many p Some s = Some (drop_while p s).
Proof.
  unfold Re.many. apply upto_all; [discriminate | apply length_take_while].
Qed.

Lemma spaces_then_rest (w : ascii) (r : text) :
  is_space w = true -> Re.many1 is_space Some (w :: r) = Some (drop_while is_space r).
Proof. intros H. unfold Re.many1. simpl. rewrite H. apply many_total. Qed.

Lemma space_not p (w : ascii) :
  (forall c, p c = true -> is_space c = false) -> is_space w = true -> p w = false.
Proof.
  intros Hp Hw. destruct (p w) eqn:E; [|reflexivity].
  apply Hp in E. congruence.
Qed.

Lemma hash_not_space c : is_char "#" c = true -> is_space c = false.
Proof. intros H. apply is_char_true in H as <-. reflexivity. Qed.

(** X11.  A line is a heading exactly when it starts with one to six "#"
    followed by a whitespace character: seven "#" in a row, a "#" with no
    whitespace after it, or an indented "#" do not make a heading. *)
Theorem is_header_iff (line : text) :
  is_header line = true
  <-> exists k w r, 1 <= k <= 6 /\ is_space w = true
                    /\ line = repeat "#"%char k ++ w :: r.
Proof.
  unfold is_header, Re.matches, header_re. split.
  - destruct (Re.one _ _ line) as [x|] eqn:H; [intros _|discriminate].
    apply one_inv in H as (c & s1 & -> & Hc & H).
    apply is_char_true in Hc as <-.
    apply upto_inv in H as (a & t & -> & Ha & Hlen & H).
    apply many1_inv in H as (ws & r & -> & Hne & Hws & _).
    destruct ws as [|w ws]; [congruence|].
    simpl in Hws. apply andb_true_iff in Hws as [Hw _].
    exists (S (length a)), w, (ws ++ r). split; [lia|]. split; [exact Hw|].
    simpl. now rewrite <- (forallb_is_char _ _ Ha).
  - intros (k & w & r & Hk & Hw & ->).
    destruct k as [|k]; [lia|]. cbn [repeat app Re.one].
    rewrite is_char_refl.
    rewrite (upto_run _ _ (w :: r) _ (spaces_then_rest w r Hw)); [reflexivity | | |].
    + apply (space_not _ _ hash_not_space Hw).
    + apply forallb_repeat, is_char_refl.
    + rewrite repeat_length. lia.
Qed.

Ltac ascii_cases c :=
  destruct c as [[] [] [] [] [] [] [] []]; try reflexivity; try discriminate.

Lemma bullet_not_space c : is_bullet c = true -> is_space c = false.
Proof. ascii_cases c. Qed.

Lemma digit_not_space c : is_digit c = true -> is_space c = false.
Proof. ascii_cases c. Qed.

Lemma many_run {A} p (k : text -> option A) (a r : text) x :
  k r = Some x ->
  match r with c :: _ => p c = false | [] => True end ->
  forallb p a = true ->
  Re.many p k (a ++ r) = Some x.
Proof.
  intros Hk Hr Ha. unfold Re.many. apply upto_run; try assumption.
  rewrite length_app. lia.
Qed.

(** X12.  A line is a list item exactly when, after any indentation, it has a
    bullet [-], [*] or [+] and a whitespace character, or one or more
    digits, a full stop and a whitespace character. *)
Theorem is_list_iff (line : text) :
  is_list line = true
  <-> exists indent rest,
        forallb is_space indent = true /\ line = indent ++ rest
        /\ ((exists b w r, is_bullet b = true /\ is_space w = true
                           /\ rest = b :: w :: r)
            \/ (exists ds w r, ds <> [] /\ forallb is_digit ds = true
                               /\ is_space w = true
                               /\ rest = ds ++ "."%char :: w :: r)).
Proof.
  unfold is_list, Re.matches. split.
  - intros H. apply orb_true_iff in H as [H|H].
    + unfold bullet_re in H.
      destruct (Re.many _ _ line) as [x|] eqn:E; [clear H|discriminate].
      apply many_inv in E as (indent & t & -> & Hind & E).
      apply one_inv in E as (b & t' & -> & Hb & E).
      apply many1_inv in E as (ws & r & -> & Hne & Hws & _).
      destruct ws as [|w ws]; [congruence|].
      simpl in Hws. apply andb_true_iff in Hws as [Hw _].
      exists indent, (b :: w :: ws ++ r). split; [exact Hind|]. split; [reflexivity|].
      left. now exists b, w, (ws ++ r).
    + unfold ordered_re in H.
      destruct (Re.many _ _ line) as [x|] eqn:E; [clear H|discriminate].
      apply many_inv in E as (indent & t & -> & Hind & E).
      apply many1_inv in E as (ds & t' & -> & Hds & Hds' & E).
      apply one_inv in E as (c & t'' & -> & Hc & E).
      apply is_char_true in Hc as <-.
      apply many1_inv in E as (ws & r & -> & Hne & Hws & _).
      destruct ws as [|w ws]; [congruence|].
      simpl in Hws. apply andb_true_iff in Hws as [Hw _].
      exists indent, (ds ++ "."%char :: w :: ws ++ r).
      split; [exact Hind|]. split; [reflexivity|].
      right. now exists ds, w, (ws ++ r).
  - intros (indent & rest & Hind & -> & [(b & w & r & Hb & Hw & ->)
                                       |(ds & w & r & Hne & Hds & Hw & ->)]).
    + apply orb_true_iff. left. unfold bullet_re.
      rewrite (many_run _ _ indent (b :: w :: r) (drop_while is_space r));
        [reflexivity | | now apply bullet_not_space | exact Hind].
      cbn [Re.one]. rewrite Hb. now apply spaces_then_rest.
    + apply orb_true_iff. right. unfold ordered_re.
      destruct ds as [|d ds]; [congruence|].
      simpl in Hds. apply andb_true_iff in Hds as [Hd Hds].
      rewrite (many_run _ _ indent ((d :: ds) ++ "."%char :: w :: r)
                 (drop_while is_space r));
        [reflexivity | | now apply digit_not_space | exact Hind].
      unfold Re.many1. cbn [app Re.one]. rewrite Hd.
      apply many_run; [| reflexivity | exact Hds].
      cbn [Re.one]. rewrite is_char_refl.
      change (Re.one is_space (Re.many is_space Some) (w :: r))
        with (Re.many1 is_space Some (w :: r)).
      now apply spaces_then_rest.
Qed.

(** ** Which lines are blank and which are fence lines *)

Lemma drop_while_nil p (s : text) : drop_while p s = [] <-> forallb p s = true.
Proof.
  induction s as [|c s IH]; simpl; [easy|].
  destruct (p c); simpl; [exact IH | split; discriminate].
Qed.

Lemma drop_while_all p (a s : text) :
  forallb p a = true -> drop_while p (a ++ s) = drop_while p s.
Proof.
  induction a as [|c a IH]; [reflexivity|]. simpl. intros H.
  apply andb_true_iff in H as [-> Ha]. now apply IH.
Qed.

Lemma drop_while_stop p (a r : text) c :
  p c = false -> drop_while p (a ++ c :: r) = drop_while p a ++ c :: r.
Proof.
  intros Hc. induction a as [|x a IH]; simpl; [now rewrite Hc|].
  destruct (p x); [exact IH | reflexivity].
Qed.

Lemma forallb_take_while p (s : text) : forallb p (take_while p s) = true.
Proof.
  induction s as [|c s IH]; [reflexivity|]. simpl.
  destruct (p c) eqn:E; [|reflexivity]. simpl. now rewrite E.
Qed.

Lemma drop_while_head p (s : text) :
  match drop_while p s with c :: _ => p c = false | [] => True end.
Proof.
  induction s as [|c s IH]; simpl; [exact I|].
  destruct (p c) eqn:E; [exact IH | exact E].
Qed.

Lemma forallb_rev p (s : text) : forallb p (rev s) = forallb p s.
Proof.
  induction s as [|c s IH]; [reflexivity|]. simpl.
  rewrite forallb_app, IH. simpl. rewrite andb_true_r. apply andb_comm.
Qed.

(** What [rstrip] removes is whitespace at the end. *)
Lemma rstrip_split (s : text) :
  exists t, s = rstrip s ++ t /\ forallb is_space t = true.
Proof.
  exists (rev (take_while is_space (rev s))). split.
  - unfold rstrip. rewrite <- rev_app_distr, take_drop_while.
    now rewrite rev_involutive.
  - rewrite forallb_rev. apply forallb_take_while.
Qed.

(** X13.  A line counts as non-blank exactly when one of its characters is not
    whitespace. *)
Theorem nonblank_iff (line : text) :
  nonblank line = true <-> forallb is_space line = false.
Proof.
  unfold nonblank. rewrite negb_true_iff.
  assert (H : strip line = [] <-> forallb is_space line = true).
  { unfold strip, rstrip, lstrip. split.
    - intros H. apply (f_equal (@rev ascii)) in H.
      rewrite rev_involutive in H. simpl in H.
      apply drop_while_nil in H. rewrite forallb_rev in H.
      pose proof (drop_while_head is_space line) as Hhead.
      destruct (drop_while is_space line) as [|c r] eqn:E;
        [now apply drop_while_nil|].
      simpl in H. rewrite Hhead in H. discriminate.
    - intros H. apply drop_while_nil in H. now rewrite H. }
  unfold text_eqb. destruct (decide (strip line = [])) as [E|E].
  - apply H in E. rewrite E. split; discriminate.
  - split; [intros _|reflexivity].
    destruct (forallb is_space line) eqn:E'; [|reflexivity].
    exfalso. apply E, H. reflexivity.
Qed.

(** X14.  A line is a fence line exactly when its first characters after any
    leading whitespace are three backticks, whatever follows them. *)
Theorem is_fence_iff (line : text) :
  is_fence line = true
  <-> exists indent r,
        forallb is_space indent = true /\ line = indent ++ fence_marker ++ r.
Proof.
  unfold is_fence, strip, lstrip. split.
  - intros H. apply startswith_inv in H.
    destruct (rstrip_split (drop_while is_space line)) as (t & Ht & _).
    exists (take_while is_space line),
           (drop (length fence_marker) (rstrip (drop_while is_space line)) ++ t).
    split; [apply forallb_take_while|].
    rewrite <- (take_drop_while is_space line) at 1. f_equal.
    rewrite app_assoc, <- H. exact Ht.
  - intros (indent & r & Hind & ->).
    rewrite (drop_while_all _ _ _ Hind).
    change (drop_while is_space (fence_marker ++ r)) with (fence_marker ++ r).
    unfold rstrip. rewrite rev_app_distr.
    change (rev fence_marker) with ("`"%char :: str "``").
    rewrite drop_while_stop by reflexivity.
    rewrite rev_app_distr.
    change (rev ("`"%char :: str "``")) with fence_marker.
    apply startswith_app.
Qed.

(** ** [fix_markdown_file] and the rest of the disk *)

Lemma fix_markdown_file_cases filepath d :
  fix_markdown_file filepath d
  = match files d !! filepath with
    | None => (Raised FileNotFoundError, d)
    | Some f =>
        if text_eqb (fix_content (contents f)) (contents f)
        then (Returned false, d)
        else if writable f
             then (Returned true, overwritten filepath (fix_content (contents f)) d)
             else (Raised PermissionError, d)
    end.
Proof.
  unfold fix_markdown_file, bind, read_text.
  destruct (files d !! filepath) as [f|] eqn:Hf; [|reflexivity].
  destruct (text_eqb _ _); [reflexivity|]. cbn [negb].
  unfold write_text. rewrite Hf. destruct (writable f); reflexivity.
Qed.

(** X21.  A missing file makes the call raise [FileNotFoundError] with
    nothing written.  A file for which the open for writing is refused
    makes it raise [PermissionError] only when its text needs a change,
    and the refused open writes nothing; when the text is already fixed
    the call returns [False], since the file is never opened for
    writing. *)
Theorem fix_markdown_file_raises (filepath : string) (d : disk) :
  (files d !! filepath = None ->
   fix_markdown_file filepath d = (Raised FileNotFoundError, d))
  /\ (forall f, files d !! filepath = Some f -> writable f = false ->
      fix_markdown_file filepath d
      = if text_eqb (fix_content (contents f)) (contents f)
        then (Returned false, d) else (Raised PermissionError, d)).
Proof.
  rewrite fix_markdown_file_cases. split.
  - now intros ->.
  - intros f -> ->. reflexivity.
Qed.

Lemma fix_markdown_file_raises_witness :
  files sample_disk !! "MISSING.md" = None
  /\ fix_markdown_file "MISSING.md" sample_disk
     = (Raised FileNotFoundError, sample_disk).
Proof.
  assert (H : files sample_disk !! "MISSING.md" = None) by (vm_compute; reflexivity).
  split; [exact H|].
  apply (proj1 (fix_markdown_file_raises "MISSING.md" sample_disk)), H.
Defined.

Lemma fix_markdown_file_frame filepath d o d' :
  fix_markdown_file filepath d = (o, d') ->
  (forall other, other <> filepath -> files d' !! other = files d !! other)
  /\ (forall name, files d' !! name = None <-> files d !! name = None)
  /\ (written d' = written d \/ written d' = filepath :: written d).
Proof.
  rewrite fix_markdown_file_cases.
  destruct (files d !! filepath) as [f|] eqn:Hf.
  - destruct (text_eqb _ _); [intros [= <- <-]; now repeat split; auto|].
    destruct (writable f); intros [= <- <-]; [|now repeat split; auto].
    cbn [overwritten files written]. split; [|split; [|now right]].
    + intros other Hne. now rewrite lookup_insert_ne.
    + intros name. destruct (decide (filepath = name)) as [<-|Hne].
      * rewrite lookup_insert_eq, Hf. split; discriminate.
      * now rewrite lookup_insert_ne.
  - intros [= <- <-]. now repeat split; auto.
Qed.

(** X22.  A call touches no file but its own: every other file is as before,
    no file appears or disappears, and at most the one path is added to
    the log of writes. *)
Theorem fix_markdown_file_touches_one_file
    (filepath : string) (d d' : disk) (o : outcome bool) :
  fix_markdown_file filepath d = (o, d') ->
  (forall other, other <> filepath -> files d' !! other = files d !! other)
  /\ (forall name, files d' !! name = None <-> files d !! name = None)
  /\ (written d' = written d \/ written d' = filepath :: written d).
Proof. apply fix_markdown_file_frame. Qed.

Lemma fix_markdown_file_touches_one_file_witness :
  fix_markdown_file "GUIDE.md" sample_disk
  = (Returned true,
     overwritten "GUIDE.md" (str "See <https://example.com> for details") sample_disk)
  /\ files (overwritten "GUIDE.md" (str "See <https://example.com> for details")
              sample_disk) !! "README.md"
     = files sample_disk !! "README.md".
Proof.
  assert (H : fix_markdown_file "GUIDE.md" sample_disk
              = (Returned true,
                 overwritten "GUIDE.md" (str "See <https://example.com> for details")
                   sample_disk)) by (vm_compute; reflexivity).
  split; [exact H|].
  apply (proj1 (fix_markdown_file_touches_one_file _ _ _ _ H)). discriminate.
Defined.

Lemma fix_markdown_file_content filepath d b d' f :
  files d !! filepath = Some f ->
  fix_markdown_file filepath d = (Returned b, d') ->
  contents <$> files d' !! filepath = Some (fix_content (contents f)).
Proof.
  intros Hf. rewrite fix_markdown_file_cases, Hf.
  destruct (text_eqb _ _) eqn:E.
  - intros [= <- <-]. apply text_eqb_eq in E. now rewrite Hf, E.
  - destruct (writable f); [|discriminate]. intros [= <- <-].
    cbn [overwritten files]. now rewrite lookup_insert_eq.
Qed.

(** X23.  After a call that returns, the file holds the transformed text of
    what it held before, whether it was written or not. *)
Theorem fix_markdown_file_result
    (filepath : string) (d d' : disk) (b : bool) (f : file) :
  files d !! filepath = Some f ->
  fix_markdown_file filepath d = (Returned b, d') ->
  contents <$> files d' !! filepath = Some (fix_content (contents f)).
Proof. apply fix_markdown_file_content. Qed.

Lemma fix_markdown_file_result_witness :
  files sample_disk !! "README.md" = Some fixed_file
  /\ fix_markdown_file "README.md" sample_disk = (Returned false, sample_disk)
  /\ contents <$> files sample_disk !! "README.md"
     = Some (fix_content (contents fixed_file)).
Proof.
  assert (H1 : files sample_disk !! "README.md" = Some fixed_file)
    by (vm_compute; reflexivity).
  assert (H2 : fix_markdown_file "README.md" sample_disk
               = (Returned false, sample_disk)) by (vm_compute; reflexivity).
  split; [exact H1|]. split; [exact H2|].
  apply (fix_markdown_file_result _ _ _ _ _ H1 H2).
Defined.

(** ** [main] *)

Lemma main_step_spec repo_root st md_file :
  let st' := main_step repo_root st md_file in
  (forall name, name <> path_name md_file ->
     files (on_disk st') !! name = files (on_disk st) !! name)
  /\ (forall name, files (on_disk st') !! name = None
                   <-> files (on_disk st) !! name = None)
  /\ ("target" ∈ parts md_file -> st' = st)
  /\ exists evs,
       printed st' = printed st ++ evs
       /\ length evs <= 1
       /\ fixed_count st' = fixed_count st + length (List.filter is_fixed_line evs)
       /\ (relative_to repo_root md_file <> None ->
           written (on_disk st')
           = repeat (path_name md_file) (length (List.filter is_fixed_line evs))
             ++ written (on_disk st)).
Proof.
  unfold main_step. destruct (decide ("target" ∈ parts md_file)) as [Ht|Ht].
  - cbn zeta. repeat split; auto. exists [].
    rewrite app_nil_r, Nat.add_0_r. repeat split; auto.
  - destruct (fix_markdown_file (path_name md_file) (on_disk st)) as [o d'] eqn:E.
    pose proof (fix_markdown_file_frame _ _ _ _ E) as (Hother & Hdom & _).
    rewrite fix_markdown_file_cases in E. cbn zeta.
    assert (Hw : o = Returned true ->
                 written d' = path_name md_file :: written (on_disk st)).
    { destruct (files (on_disk st) !! path_name md_file) as [f|]; [|congruence].
      destruct (text_eqb _ _); [congruence|].
      destruct (writable f); [|congruence].
      injection E as <- <-. reflexivity. }
    assert (Hs : o <> Returned true -> d' = on_disk st).
    { destruct (files (on_disk st) !! path_name md_file) as [f|]; [|congruence].
      destruct (text_eqb _ _); [congruence|].
      destruct (writable f); congruence. }
    clear E.
    destruct o as [[|]|e].
    + destruct (relative_to repo_root md_file) as [rel|];
        cbn [on_disk printed fixed_count]; (split; [exact Hother|]);
        (split; [exact Hdom|]); (split; [intros ?; contradiction|]).
      * exists [Fixed rel]. repeat split; [simpl; lia|].
        intros _. now rewrite Hw.
      * exists [ErrorFixing (path_name md_file) ValueError].
        repeat split; [simpl; lia | simpl; lia | congruence].
    + cbn [on_disk printed fixed_count]. (split; [exact Hother|]).
      (split; [exact Hdom|]). (split; [intros ?; contradiction|]).
      exists []. rewrite app_nil_r. repeat split; [simpl; lia | simpl; lia|].
      intros _. now rewrite Hs.
    + cbn [on_disk printed fixed_count]. (split; [exact Hother|]).
      (split; [exact Hdom|]). (split; [intros ?; contradiction|]).
      exists [ErrorFixing (path_name md_file) (OSError e)].
      repeat split; [simpl; lia | simpl; lia|].
      intros _. now rewrite Hs.
Qed.

Lemma main_loop_cons repo_root f md_files st :
  main_loop repo_root (f :: md_files) st
  = main_loop repo_root md_files (main_step repo_root st f).
Proof. reflexivity. Qed.

(** The loop leaves alone every file that is not the file of a listed
    path outside "target"; it creates and deletes nothing. *)
Lemma main_loop_frame repo_root md_files : forall st name,
  (files (on_disk (main_loop repo_root md_files st)) !! name = None
   <-> files (on_disk st) !! name = None)
  /\ ((forall f, In f md_files -> path_name f = name -> "target" ∈ parts f) ->
      files (on_disk (main_loop repo_root md_files st)) !! name
      = files (on_disk st) !! name).
Proof.
  induction md_files as [|f md_files IH]; intros st name; [now split|].
  rewrite main_loop_cons.
  destruct (IH (main_step repo_root st f) name) as [IHdom IHframe].
  destruct (main_step_spec repo_root st f) as (Hother & Hdom & Hskip & _).
  split; [now rewrite IHdom|].
  intros H. rewrite IHframe by (intros g Hg; apply H; now right).
  destruct (decide (name = path_name f)) as [->|Hne]; [|now apply Hother].
  rewrite Hskip; [reflexivity|]. apply H; [now left | reflexivity].
Qed.


(** X24.  [main] never touches a file unless a listed path outside "target"
    names it: files below a directory called "target", and files that are
    not listed, are as before; and [main] creates and deletes no file. *)
Theorem main_leaves_other_files
    (repo_root : list string) (md_files : list md_path) (d : disk) (name : string) :
  (files (snd (main repo_root md_files d)) !! name = None <-> files d !! name = None)
  /\ ((forall f, In f md_files -> path_name f = name -> "target" ∈ parts f) ->
      files (snd (main repo_root md_files d)) !! name = files d !! name).
Proof. unfold main. cbn [snd]. apply main_loop_frame. Qed.


Lemma main_step_disk repo_root st f :
  "target" ∉ parts f ->
  on_disk (main_step repo_root st f)
  = snd (fix_markdown_file (path_name f) (on_disk st)).
Proof.
  intros Ht. unfold main_step.
  destruct (decide ("target" ∈ parts f)); [contradiction|].
  destruct (fix_markdown_file (path_name f) (on_disk st)) as [[[|]|e] d'];
    [destruct (relative_to repo_root f)|..]; reflexivity.
Qed.





Lemma main_step_fixed repo_root st f :
  ("target" ∈ parts f
   \/ exists fl, files (on_disk st) !! path_name f = Some fl
                 /\ fix_content (contents fl) = contents fl) ->
  main_step repo_root st f = st.
Proof.
  unfold main_step. intros [Ht|(fl & Hfl & Hfix)];
    destruct (decide ("target" ∈ parts f)); try reflexivity; try contradiction.
  rewrite fix_markdown_file_cases, Hfl.
  apply text_eqb_eq in Hfix. rewrite Hfix. now destruct st.
Qed.

(** X27.  Run on files that are all fixed already (or lie below "target"),
    [main] writes nothing and prints only a total of 0. *)
Theorem main_already_fixed
    (repo_root : list string) (md_files : list md_path) (d : disk) :
  (forall f, In f md_files ->
     "target" ∈ parts f
     \/ exists fl, files d !! path_name f = Some fl
                   /\ fix_content (contents fl) = contents fl) ->
  main repo_root md_files d = ([TotalFilesFixed 0], d).
Proof.
  intros H. unfold main.
  assert (Hloop : main_loop repo_root md_files
                    {| fixed_count := 0; printed := []; on_disk := d |}
                  = {| fixed_count := 0; printed := []; on_disk := d |}).
  { induction md_files as [|f md_files IH]; [reflexivity|].
    rewrite main_loop_cons, main_step_fixed; [|apply H; now left].
    apply IH. intros g Hg. apply H. now right. }
  now rewrite Hloop.
Qed.

Lemma main_loop_fixes repo_root md_files : forall st f fl,
  NoDup (map path_name md_files) ->
  In f md_files -> "target" ∉ parts f ->
  files (on_disk st) !! path_name f = Some fl ->
  (writable fl = true \/ fix_content (contents fl) = contents fl) ->
  contents <$> files (on_disk (main_loop repo_root md_files st)) !! path_name f
  = Some (fix_content (contents fl)).
Proof.
  induction md_files as [|g md_files IH]; intros st f fl Hnd Hin Ht Hfl Hok;
    [destruct Hin|].
  rewrite main_loop_cons. cbn [map] in Hnd. apply NoDup_cons in Hnd as [Hg Hnd].
  destruct Hin as [->|Hin].
  - rewrite (proj2 (main_loop_frame repo_root md_files _ (path_name f))).
    + rewrite main_step_disk by exact Ht.
      destruct (fix_markdown_file (path_name f) (on_disk st)) as [o d'] eqn:E.
      cbn [snd].
      assert (Ho : exists b, o = Returned b).
      { rewrite fix_markdown_file_cases, Hfl in E.
        destruct (text_eqb _ _) eqn:E'; [injection E as <- _; now eexists|].
        destruct Hok as [Hw|Hfix];
          [rewrite Hw in E; injection E as <- _; now eexists|].
        apply text_eqb_eq in Hfix. congruence. }
      destruct Ho as [b ->]. exact (fix_markdown_file_content _ _ _ _ _ Hfl E).
    + intros h Hh Heq. exfalso. apply Hg.
      apply list_elem_of_In, in_map_iff. now exists h.
  - apply IH; try assumption.
    destruct (main_step_spec repo_root st g) as (Hother & _).
    rewrite Hother; [exact Hfl|].
    intros Heq. apply Hg. apply list_elem_of_In, in_map_iff. now exists f.
Qed.

(** X28.  When no two listed paths name the same file, every listed file
    outside "target" that can be written (or needs no change) holds, after
    [main], the transformed text of what it held before. *)
Theorem main_fixes_each_file
    (repo_root : list string) (md_files : list md_path) (d : disk)
    (f : md_path) (fl : file) :
  NoDup (map path_name md_files) ->
  In f md_files -> "target" ∉ parts f ->
  files d !! path_name f = Some fl ->
  (writable fl = true \/ fix_content (contents fl) = contents fl) ->
  contents <$> files (snd (main repo_root md_files d)) !! path_name f
  = Some (fix_content (contents fl)).
Proof.
  intros. unfold main. cbn [snd].
  now apply (main_loop_fixes repo_root md_files
               {| fixed_count := 0; printed := []; on_disk := d |}).
Qed.

(** ** The properties above at concrete inputs *)

Lemma fence_pass_keeps_lines_witness :
  In (str "code") (fence_pass (map str ["```"; "code"]))
  /\ (str "code" = blank_line \/ In (str "code") (map str ["```"; "code"])).
Proof.
  assert (H : In (str "code") (fence_pass (map str ["```"; "code"])))
    by (vm_compute; auto 10).
  split; [exact H|].
  apply (proj2 (fence_pass_keeps_lines (map str ["```"; "code"])) _ H).
Defined.

Lemma header_list_pass_adds_only_blank_witness :
  In (str "# Heading") (header_list_pass (map str ["Title"; "# Heading"; "Body"]))
  /\ (str "# Heading" = blank_line
      \/ In (str "# Heading") (map str ["Title"; "# Heading"; "Body"])).
Proof.
  assert (H : In (str "# Heading")
                (header_list_pass (map str ["Title"; "# Heading"; "Body"])))
    by (vm_compute; auto 10).
  split; [exact H|].
  apply (header_list_pass_adds_only_blank _ _ H).
Defined.

Lemma is_header_iff_witness :
  (exists k w r, 1 <= k <= 6 /\ is_space w = true
                 /\ str "## Title" = repeat "#"%char k ++ w :: r)
  /\ is_header (str "## Title") = true.
Proof.
  assert (H : exists k w r, 1 <= k <= 6 /\ is_space w = true
                 /\ str "## Title" = repeat "#"%char k ++ w :: r).
  { exists 2, " "%char, (str "Title"). split; [lia|]. split; reflexivity. }
  split; [exact H|]. apply (proj2 (is_header_iff _) H).
Defined.

Lemma is_list_iff_witness :
  (exists indent rest,
     forallb is_space indent = true /\ str "  12. item" = indent ++ rest
     /\ ((exists b w r, is_bullet b = true /\ is_space w = true
                        /\ rest = b :: w :: r)
         \/ (exists ds w r, ds <> [] /\ forallb is_digit ds = true
                            /\ is_space w = true
                            /\ rest = ds ++ "."%char :: w :: r)))
  /\ is_list (str "  12. item") = true.
Proof.
  assert (H : exists indent rest,
     forallb is_space indent = true /\ str "  12. item" = indent ++ rest
     /\ ((exists b w r, is_bullet b = true /\ is_space w = true
                        /\ rest = b :: w :: r)
         \/ (exists ds w r, ds <> [] /\ forallb is_digit ds = true
                            /\ is_space w = true
                            /\ rest = ds ++ "."%char :: w :: r))).
  { exists (str "  "), (str "12. item"). split; [reflexivity|].
    split; [reflexivity|]. right.
    exists (str "12"), " "%char, (str "item").
    split; [discriminate|]. repeat split; reflexivity. }
  split; [exact H|]. apply (proj2 (is_list_iff _) H).
Defined.

Lemma nonblank_iff_witness :
  forallb is_space (str "  x ") = false /\ nonblank (str "  x ") = true.
Proof.
  split; [reflexivity|]. apply (proj2 (nonblank_iff _)). reflexivity.
Defined.

Lemma is_fence_iff_witness :
  (exists indent r, forallb is_space indent = true
                    /\ str "  ```python" = indent ++ fence_marker ++ r)
  /\ is_fence (str "  ```python") = true.
Proof.
  assert (H : exists indent r, forallb is_space indent = true
                    /\ str "  ```python" = indent ++ fence_marker ++ r).
  { exists (str "  "), (str "python"). split; reflexivity. }
  split; [exact H|]. apply (proj2 (is_fence_iff _) H).
Defined.

Lemma url_re_match_witness :
  url_re (str " http://x y") = Some (10, str " <http://x> ")
  /\ exists w1 body w2 r,
       str " http://x y" = w1 :: body ++ w2 :: r
       /\ is_space w1 = true /\ url_shape body /\ is_space w2 = true
       /\ 10 = length (w1 :: body ++ [w2])
       /\ str " <http://x> " = w1 :: str "<" ++ body ++ str ">" ++ [w2].
Proof.
  assert (H : url_re (str " http://x y") = Some (10, str " <http://x> "))
    by reflexivity.
  split; [exact H|]. apply (url_re_match _ _ _ H).
Defined.

Lemma email_re_match_witness :
  email_re (str " a@b.io y") = Some (8, str " <a@b.io> ")
  /\ exists w1 body w2 r,
       str " a@b.io y" = w1 :: body ++ w2 :: r
       /\ is_space w1 = true /\ email_shape body /\ is_space w2 = true
       /\ 8 = length (w1 :: body ++ [w2])
       /\ str " <a@b.io> " = w1 :: str "<" ++ body ++ str ">" ++ [w2].
Proof.
  assert (H : email_re (str " a@b.io y") = Some (8, str " <a@b.io> "))
    by reflexivity.
  split; [exact H|]. apply (email_re_match _ _ _ H).
Defined.

Lemma main_leaves_other_files_witness :
  (forall f, In f [target_path] -> path_name f = "GUIDE.md" -> "target" ∈ parts f)
  /\ files (snd (main sample_root [target_path] sample_disk)) !! "GUIDE.md"
     = files sample_disk !! "GUIDE.md".
Proof.
  assert (H : forall f, In f [target_path] -> path_name f = "GUIDE.md"
                        -> "target" ∈ parts f).
  { intros f [<-|[]] _. simpl. apply list_elem_of_In. simpl. auto. }
  split; [exact H|].
  apply (proj2 (main_leaves_other_files sample_root [target_path] sample_disk
                  "GUIDE.md") H).
Defined.



Lemma main_already_fixed_witness :
  (forall f, In f [readme_path; target_path] ->
     "target" ∈ parts f
     \/ exists fl, files sample_disk !! path_name f = Some fl
                   /\ fix_content (contents fl) = contents fl)
  /\ main sample_root [readme_path; target_path] sample_disk
     = ([TotalFilesFixed 0], sample_disk).
Proof.
  assert (H : forall f, In f [readme_path; target_path] ->
     "target" ∈ parts f
     \/ exists fl, files sample_disk !! path_name f = Some fl
                   /\ fix_content (contents fl) = contents fl).
  { intros f [<-|[<-|[]]].
    - right. exists fixed_file. split; [vm_compute; reflexivity | reflexivity].
    - left. apply list_elem_of_In. simpl. auto. }
  split; [exact H|].
  apply (main_already_fixed sample_root [readme_path; target_path] sample_disk H).
Defined.

Lemma main_fixes_each_file_witness :
  NoDup (map path_name [guide_path; readme_path])
  /\ In guide_path [guide_path; readme_path]
  /\ ("target" ∉ parts guide_path)
  /\ files sample_disk !! path_name guide_path = Some unfixed_file
  /\ (writable unfixed_file = true
      \/ fix_content (contents unfixed_file) = contents unfixed_file)
  /\ contents <$> files (snd (main sample_root [guide_path; readme_path]
                                sample_disk)) !! path_name guide_path
     = Some (fix_content (contents unfixed_file)).
Proof.
  assert (H1 : NoDup (map path_name [guide_path; readme_path])).
  { apply NoDup_cons. split; [|apply NoDup_singleton].
    intros H. apply list_elem_of_In in H. simpl in H.
    destruct H as [H|[]]. discriminate H. }
  assert (H2 : In guide_path [guide_path; readme_path]) by (now left).
  assert (H3 : "target" ∉ parts guide_path).
  { intros H. apply list_elem_of_In in H. simpl in H.
    destruct H as [H|[H|[]]]; discriminate H. }
  assert (H4 : files sample_disk !! path_name guide_path = Some unfixed_file)
    by (vm_compute; reflexivity).
  assert (H5 : writable unfixed_file = true
               \/ fix_content (contents unfixed_file) = contents unfixed_file)
    by (left; reflexivity).
  split; [exact H1|]. split; [exact H2|]. split; [exact H3|].
  split; [exact H4|]. split; [exact H5|].
  apply (main_fixes_each_file sample_root [guide_path; readme_path] sample_disk
           guide_path unfixed_file H1 H2 H3 H4 H5).
Defined.

(** ** The URL pattern matches every URL between whitespace *)

Lemma lit_app {A} w (k : text -> option A) r : Re.lit w k (w ++ r) = k r.
Proof. now rewrite lit_spec, startswith_app, drop_app_length. Qed.

Lemma many1_run {A} p (k : text -> option A) (a r : text) x :
  k r = Some x ->
  match r with c :: _ => p c = false | [] => True end ->
  a <> [] -> forallb p a = true ->
  Re.many1 p k (a ++ r) = Some x.
Proof.
  intros Hk Hr Hne Ha. destruct a as [|c a]; [congruence|].
  simpl in Ha. apply andb_true_iff in Ha as [Hc Ha].
  unfold Re.many1. cbn [app Re.one]. rewrite Hc. now apply many_run.
Qed.

Lemma space_not_url_char w : is_space w = true -> is_url_char w = false.
Proof. unfold is_url_char. now intros ->. Qed.

Lemma url_re_complete (w1 w2 : ascii) (body r : text) :
  is_space w1 = true -> url_shape body -> is_space w2 = true ->
  url_re (w1 :: body ++ w2 :: r)
  = Some (length (w1 :: body ++ [w2]), w1 :: str "<" ++ body ++ str ">" ++ [w2]).
Proof.
  intros Hw1 (scheme & run & -> & Hs & Hne & Hrun) Hw2.
  rewrite <- (angle_brackets_spec w1 w2 (scheme ++ run) r).
  unfold url_re. cbn [Re.one]. rewrite Hw1.
  set (s1 := (scheme ++ run) ++ w2 :: r).
  set (k3 := fun s2 : text =>
               Re.one is_space
                 (fun s3 => Some (angle_brackets (w1 :: s1) s1 s2 s3)) s2).
  assert (H3 : Re.many1 is_url_char k3 (run ++ w2 :: r)
               = Some (angle_brackets (w1 :: s1) s1 (w2 :: r) r)).
  { apply many1_run; [|now apply space_not_url_char | exact Hne | exact Hrun].
    unfold k3. cbn [Re.one]. now rewrite Hw2. }
  assert (H2 : Re.lit (str "://") (Re.many1 is_url_char k3)
                 (str "://" ++ run ++ w2 :: r)
               = Some (angle_brackets (w1 :: s1) s1 (w2 :: r) r))
    by now rewrite lit_app.
  destruct Hs as [-> | ->].
  - change s1 with (str "http" ++ [] ++ str "://" ++ run ++ w2 :: r) at 1.
    rewrite lit_app. unfold Re.opt.
    apply (upto_run _ _ _ _ H2); [reflexivity | reflexivity | simpl; lia].
  - change s1 with (str "http" ++ ["s"%char] ++ str "://" ++ run ++ w2 :: r) at 1.
    rewrite lit_app. unfold Re.opt.
    apply (upto_run _ _ _ _ H2); [reflexivity | reflexivity | simpl; lia].
Qed.

(** X29.  A whitespace character, a URL and a whitespace character are always
    matched by the URL pattern, whole, and replaced by the same with the
    URL between angle brackets. *)
Theorem url_re_matches_every_url (w1 w2 : ascii) (body r : text) :
  is_space w1 = true -> url_shape body -> is_space w2 = true ->
  url_re (w1 :: body ++ w2 :: r)
  = Some (length (w1 :: body ++ [w2]), w1 :: str "<" ++ body ++ str ">" ++ [w2]).
Proof. exact (url_re_complete w1 w2 body r). Qed.

Lemma url_re_matches_every_url_witness :
  is_space " " = true
  /\ url_shape (str "https://example.com")
  /\ url_re (" "%char :: str "https://example.com" ++ " "%char :: str "for")
     = Some (length (" "%char :: str "https://example.com" ++ [" "%char]),
             " "%char :: str "<" ++ str "https://example.com" ++ str ">"
               ++ [" "%char]).
Proof.
  assert (H : url_shape (str "https://example.com")).
  { exists (str "https://"), (str "example.com").
    split; [reflexivity|]. split; [now right|]. split; [discriminate | reflexivity]. }
  split; [reflexivity|]. split; [exact H|].
  apply (url_re_matches_every_url " "%char " "%char (str "https://example.com")
           (str "for") eq_refl H eq_refl).
Defined.
